(** * The Kafka producer gateway: dispatch and status tracking

    A shallow embedding of [apis/kafka/producer.py]: the [/push/{topic}]
    and [/status/{uid}] handlers together with the Redis helpers they call
    ([get_pending_queue], [fetch_redis]).

    The handlers talk to three process-wide clients: the Redis connection,
    the Kafka producer and the random source behind [random_hash].  They
    are modelled as one [World] that every handler threads through an
    exception-and-state monad; each client call is also appended to a
    [trace], so that the order of the calls and the absence of a call can
    be stated. *)

From stdpp Require Import base strings gmap list.
From Stdlib Require Import ZArith Lia.

Open Scope Z_scope.
Open Scope nat_scope.

(** ** Data model *)

(** [class Status(str, Enum)]. *)
Inductive Status := PENDING | WORKING | FINISHED | EXCEPTION.

#[global] Instance Status_eq_dec : EqDecision Status.
Proof. solve_decision. Defined.

(** [Any]: a JSON payload, opaque to the producer; kept in serialised form. *)
Definition Any := string.

(** [class StatusData(NamedTuple)]. *)
Record StatusData := mkStatusData {
  sd_status : Status;
  sd_data : option Any;
}.

(** [class StatusModel(BaseModel)]; [pending] is a Python [int]. *)
Record StatusModel := mkStatusModel {
  status : Status;
  pending : Z;
  data : option Any;
}.

(** [class ProducerModel(BaseModel)]; the [params] mapping is carried in
    serialised form. *)
Record ProducerModel := mkProducerModel {
  task : string;
  params : Any;
}.

(** [class ProducerResponseModel(BaseModel)]. *)
Record ProducerResponseModel := mkProducerResponseModel {
  uid : string;
}.

(** The body of a Kafka message: [dict(uid=uid, task=data.task, params=data.params)]. *)
Record Message := mkMessage {
  msg_uid : string;
  msg_task : string;
  msg_params : Any;
}.

(** What [json.loads] gives back for a value kept in Redis.  Two shapes are
    ever written there: the array of uids under [pending_queue_key], and one
    [{status, data}] object per uid.  Both live in the same key space. *)
Inductive value :=
  | VList (uids : list string)
  | VDict (record : StatusData).

(** The exceptions that can leave a handler. *)
Inductive exn :=
  | KafkaError
  | TypeError
  | AttributeError
  | KeyError
  | IndexError.

(** One call on a client. *)
Inductive event :=
  | EHash (h : string)
  | ESend (topic : string) (m : Message)
  | EGet (key : string)
  | ESet (key : string) (v : value).

(** The clients' state.  [kafka_up] says whether [send] takes a record or
    raises; [kafka] lists the records [send] has taken, per topic, in
    order.  [kafka_acks] says whether the broker then acknowledges a record
    [send] has taken: it is what the future [send] returns resolves to.
    [rng] with [draws] is the random source of [random_hash]. *)
Record World := mkWorld {
  redis : gmap string value;
  kafka_up : bool;
  kafka_acks : bool;
  kafka : list (string * Message);
  rng : nat -> string;
  draws : nat;
  trace : list event;
}.

Definition log (e : event) (w : World) : World :=
  mkWorld (redis w) (kafka_up w) (kafka_acks w) (kafka w) (rng w) (draws w)
    (trace w ++ [e]).

Definition with_redis (r : gmap string value) (w : World) : World :=
  mkWorld r (kafka_up w) (kafka_acks w) (kafka w) (rng w) (draws w) (trace w).

Definition with_kafka (k : list (string * Message)) (w : World) : World :=
  mkWorld (redis w) (kafka_up w) (kafka_acks w) k (rng w) (draws w) (trace w).

Definition with_draws (n : nat) (w : World) : World :=
  mkWorld (redis w) (kafka_up w) (kafka_acks w) (kafka w) (rng w) n (trace w).

(** ** The monad of a handler: state, and exceptions that keep the state *)

Inductive result (A : Type) :=
  | Ok (a : A)
  | Raise (e : exn).
Arguments Ok {A} a.
Arguments Raise {A} e.

Definition M (A : Type) : Type := World -> result A * World.

#[global] Instance M_ret : MRet M := fun A a w => (Ok a, w).

#[global] Instance M_bind : MBind M := fun A B f m w =>
  match m w with
  | (Ok a, w') => f a w'
  | (Raise e, w') => (Raise e, w')
  end.

Definition raise {A} (e : exn) : M A := fun w => (Raise e, w).

(** ** The clients *)

(** [redis_client.get(key)]. *)
Definition redis_get (key : string) : M (option value) :=
  fun w => (Ok (redis w !! key), log (EGet key) w).

(** [redis_client.set(key, json.dumps(v))]. *)
Definition redis_set (key : string) (v : value) : M unit :=
  fun w => (Ok tt, log (ESet key v) (with_redis (<[key := v]> (redis w)) w)).

(** The future [kafka_producer.send] returns, as it resolves: the broker
    acknowledged the record, or the publish failed after [send] returned. *)
Inductive FutureRecordMetadata :=
  | FutureSucceeded
  | FutureFailed.

(** [kafka_producer.send(topic, ...)] is asynchronous.  It raises when the
    producer cannot take the record, and then nothing has been handed over.
    Otherwise it takes the record and returns at once with a future; whether
    the publish succeeds is known only through that future. *)
Definition kafka_send (topic : string) (m : Message)
  : M FutureRecordMetadata :=
  fun w =>
    if kafka_up w
    then (Ok (if kafka_acks w then FutureSucceeded else FutureFailed),
          log (ESend topic m) (with_kafka (kafka w ++ [(topic, m)]) w))
    else (Raise KafkaError, w).

(** [random_hash()]. *)
Definition random_hash : M string :=
  fun w =>
    let h := rng w (draws w) in
    (Ok h, log (EHash h) (with_draws (S (draws w)) w)).

(** ** Python list operations used by the handlers *)

(** [enumerate(queue)], counting from [i]. *)
Fixpoint enumerate_from {A} (i : nat) (l : list A) : list (nat * A) :=
  match l with
  | [] => []
  | x :: rest => (i, x) :: enumerate_from (S i) rest
  end.

Definition enumerate {A} (l : list A) : list (nat * A) := enumerate_from 0 l.

(** [queue.pop(idx)] for its effect on the list; [IndexError] out of range. *)
Fixpoint pop {A} (idx : nat) (l : list A) : result (list A) :=
  match l, idx with
  | [], _ => Raise IndexError
  | _ :: rest, O => Ok rest
  | x :: rest, S i =>
      match pop i rest with
      | Ok rest' => Ok (x :: rest')
      | Raise e => Raise e
      end
  end.

(** [for idx in indices: queue.pop(idx)]. *)
Fixpoint pop_each {A} (indices : list nat) (queue : list A) : result (list A) :=
  match indices with
  | [] => Ok queue
  | idx :: rest =>
      match pop idx queue with
      | Ok queue' => pop_each rest queue'
      | Raise e => Raise e
      end
  end.

(** [queue.index(uid)]: the first position of [uid], [None] for [ValueError]. *)
Fixpoint index (uid : string) (queue : list string) : option nat :=
  match queue with
  | [] => None
  | x :: rest =>
      if bool_decide (x = uid) then Some 0
      else match index uid rest with
           | Some i => Some (S i)
           | None => None
           end
  end.

(** ** The Redis helpers *)

Definition pending_queue_key : string := "KAFKA_PENDING_QUEUE".

(** [get_pending_queue]: whatever [json.loads] makes of the stored value,
    [[]] when the key is missing. *)
Definition get_pending_queue : M value :=
  data ← redis_get pending_queue_key;
  match data with
  | None => mret (VList [])
  | Some v => mret v
  end.

(** [fetch_redis]: the stored object is unpacked into the keyword arguments
    of [StatusData]; unpacking raises [TypeError] when the stored value is
    an array and not an object. *)
Definition fetch_redis (uid : string) : M StatusData :=
  data ← redis_get uid;
  match data with
  | None => mret (mkStatusData PENDING None)
  | Some (VDict record) => mret record
  | Some (VList _) => raise TypeError
  end.

(** ** The handlers *)

Definition is_finished (record : StatusData) : bool :=
  bool_decide (sd_status record = FINISHED).

(** The first loop of the [else] branch of [get_status]:
    [[
    for i, i_uid in enumerate(queue):
        if fetch_redis(i_uid).status == "finished":
            pop_indices.append(i)
    ]] *)
Fixpoint scan_finished (items : list (nat * string)) (pop_indices : list nat)
  : M (list nat) :=
  match items with
  | [] => mret pop_indices
  | (i, i_uid) :: rest =>
      record ← fetch_redis i_uid;
      scan_finished rest
        (if is_finished record then pop_indices ++ [i] else pop_indices)
  end.

(** The pruning block of [get_status], from [queue = get_pending_queue()]
    to the conditional [redis_client.set]; the specification calls it
    [prune_and_rewrite].  It yields the local [queue] as the block leaves it.

    When the value under [pending_queue_key] is an object, [enumerate] runs
    over its two keys, and [queue.pop(idx)] with an integer raises
    [KeyError]. *)
Definition prune_and_rewrite : M value :=
  queue ← get_pending_queue;
  match queue with
  | VList q =>
      pop_indices ← scan_finished (enumerate q) [];
      match pop_each (rev pop_indices) q with
      | Raise e => raise e
      | Ok q' =>
          match pop_indices with
          | [] => mret tt
          | _ :: _ => redis_set pending_queue_key (VList q')
          end;;
          mret (VList q')
      end
  | VDict record =>
      pop_indices ← scan_finished (enumerate ["status"; "data"]) [];
      match pop_indices with
      | [] => mret (VDict record)
      | _ :: _ => raise KeyError
      end
  end.

(** [GET /status/{uid}].  The bare [except] turns a failed [queue.index]
    into [len(queue) - 1]: [ValueError] on a list that lacks [uid], and
    [AttributeError] on a two-key object, which has no [index]. *)
Definition get_status (uid : string) : M StatusModel :=
  record ← fetch_redis uid;
  lag ← (if is_finished record then mret 0%Z
         else
           queue ← prune_and_rewrite;
           match queue with
           | VList q =>
               match index uid q with
               | Some i => mret (Z.of_nat i)
               | None => mret (Z.of_nat (length q) - 1)%Z
               end
           | VDict _ => mret (2 - 1)%Z
           end);
  mret (mkStatusModel (sd_status record) lag (sd_data record)).

(** [POST /push/{topic}].  The future [send] returns is dropped: the
    handler goes on without waiting for it.  [queue.append] raises
    [AttributeError] on an object. *)
Definition push (data : ProducerModel) (topic : string)
  : M ProducerResponseModel :=
  uid ← random_hash;
  kafka_send topic (mkMessage uid (task data) (params data));;
  queue ← get_pending_queue;
  match queue with
  | VList q =>
      redis_set pending_queue_key (VList (q ++ [uid]));;
      redis_set uid (VDict (mkStatusData PENDING None));;
      mret (mkProducerResponseModel uid)
  | VDict _ => raise AttributeError
  end.

(** ** Views of the store used in the statements *)

(** The record [fetch_redis] makes of what is stored under [uid]. *)
Definition lookup_record (s : gmap string value) (uid : string)
  : result StatusData :=
  match s !! uid with
  | None => Ok (mkStatusData PENDING None)
  | Some (VDict record) => Ok record
  | Some (VList _) => Raise TypeError
  end.

(** The Task Record of [uid] says [finished]. *)
Definition finished (s : gmap string value) (uid : string) : bool :=
  match lookup_record s uid with
  | Ok record => is_finished record
  | Raise _ => false
  end.

(** [fetch_redis uid] returns a record. *)
Definition readable (s : gmap string value) (uid : string) : bool :=
  match lookup_record s uid with
  | Ok _ => true
  | Raise _ => false
  end.

(** The queue snapshot: what [get_pending_queue] returns. *)
Definition snapshot (s : gmap string value) : value :=
  match s !! pending_queue_key with
  | None => VList []
  | Some v => v
  end.

(** The queue without the uids whose Task Record says [finished]. *)
Definition pruned (s : gmap string value) (q : list string) : list string :=
  List.filter (fun u => negb (finished s u)) q.

(** The uids ahead of [uid]: those before its first occurrence. *)
Fixpoint ahead (uid : string) (q : list string) : list string :=
  match q with
  | [] => []
  | x :: rest => if bool_decide (x = uid) then [] else x :: ahead uid rest
  end.

(** Several calls appended to the trace. *)
Definition logs (es : list event) (w : World) : World :=
  mkWorld (redis w) (kafka_up w) (kafka_acks w) (kafka w) (rng w) (draws w)
    (trace w ++ es).

(** The positions, counted from [k], of the elements that satisfy [p]. *)
Fixpoint marks {A} (p : A -> bool) (k : nat) (l : list A) : list nat :=
  match l with
  | [] => []
  | x :: rest => if p x then k :: marks p (S k) rest else marks p (S k) rest
  end.

(** What the scanning loop computes, as a function of the store. *)
Fixpoint scan_pure (s : gmap string value) (items : list (nat * string))
    (pop_indices : list nat) : result (list nat) :=
  match items with
  | [] => Ok pop_indices
  | (i, i_uid) :: rest =>
      match lookup_record s i_uid with
      | Ok record =>
          scan_pure s rest
            (if is_finished record then pop_indices ++ [i] else pop_indices)
      | Raise e => Raise e
      end
  end.

(** The reads the scanning loop makes: it stops at the first failure. *)
Fixpoint scan_reads (s : gmap string value) (items : list (nat * string))
  : list event :=
  match items with
  | [] => []
  | (_, i_uid) :: rest =>
      EGet i_uid ::
      match lookup_record s i_uid with
      | Ok _ => scan_reads s rest
      | Raise _ => []
      end
  end.

(** The layout the service keeps in the store: the value under the queue
    key, if there is one, is a list, and [fetch_redis] can read every queued
    uid.  The statements about the queue are made on such stores; on any
    other store the pruning block raises or hands back the stored object,
    see [prune_and_rewrite_cases]. *)
Definition well_laid_out (s : gmap string value) : Prop :=
  exists q, snapshot s = VList q /\ forallb (readable s) q = true.

(** The world the pruning block leaves behind when the stored queue is [q]
    and all its entries are readable: the queue and each entry have been
    read, and the pruned queue has been written when it differs from [q]. *)
Definition after_prune (w : World) (q : list string) : World :=
  let q' := pruned (redis w) q in
  let w1 := logs (EGet pending_queue_key :: map EGet q) w in
  if bool_decide (q' = q) then w1
  else log (ESet pending_queue_key (VList q'))
         (with_redis (<[pending_queue_key := VList q']> (redis w)) w1).

(** The lag [get_status] computes from the pruned queue. *)
Definition lag_in (uid : string) (q : list string) : Z :=
  match index uid q with
  | Some i => Z.of_nat i
  | None => (Z.of_nat (length q) - 1)%Z
  end.

(** The claim that a query for a finished uid clears it from the queue,
    as the specification words it: once [get_status U] has
    reported [U] as finished, a queue snapshot no longer holds [U]. *)
Definition finished_query_clears (U : string) (w : World) : Prop :=
  forall record, lookup_record (redis w) U = Ok record ->
  sd_status record = FINISHED ->
  forall r w', get_status U w = (Ok r, w') -> status r = FINISHED ->
  forall q', snapshot (redis w') = VList q' -> ~ In U q'.

(** ** Example worlds *)

(** The end-to-end scenario after the worker has finished [abc123]. *)
Definition e2e_world : World :=
  mkWorld
    (<["abc123" := VDict (mkStatusData FINISHED (Some "url"))]>
       (<[pending_queue_key := VList ["abc123"]]> ∅))
    true true [("jobs", mkMessage "abc123" "resize" "w100h100")]
    (fun _ => "def456") 1 [].

(** Three queued tasks, the middle one finished. *)
Definition busy_world : World :=
  mkWorld
    (<["b" := VDict (mkStatusData FINISHED (Some "url"))]>
       (<["c" := VDict (mkStatusData WORKING None)]>
          (<[pending_queue_key := VList ["a"; "b"; "c"]]> ∅)))
    true true [] (fun _ => "d") 3 [].

(** A fresh store with a producer whose [send] raises. *)
Definition down_world : World :=
  mkWorld ∅ false false [] (fun _ => "a") 0 [].

(** ** The readiness probe and the access-log filter *)

(** [class ServerStatusModel(BaseModel)]; [num_pending] is a Python [int]. *)
Record ServerStatusModel := mkServerStatusModel {
  is_ready : bool;
  num_pending : Z;
}.

(** One entry of the admin client's reply to [describe_consumer_groups]:
    what the handler reads of it is the list of members. *)
Record GroupDescription := mkGroupDescription {
  members : list string;
}.

(** [len(queue)] of what [get_pending_queue] returned: the length of a list,
    the number of keys of a [{status, data}] object. *)
Definition len (v : value) : nat :=
  match v with
  | VList q => length q
  | VDict _ => 2
  end.

(** [kafka_admin.describe_consumer_groups(["creator-consumer-1"])].  [World]
    carries no consumer-group state: the reply of the admin client, or the
    exception it raises, is an input of the handler. *)
Definition describe_consumer_groups (reply : result (list GroupDescription))
  : M (list GroupDescription) :=
  fun w => (reply, w).

(** [GET /server_status].  The subscript [[0]] raises [IndexError] on an
    empty reply; the keyword arguments are evaluated left to right, so the
    queue is read after the members. *)
Definition server_status (reply : result (list GroupDescription))
  : M ServerStatusModel :=
  groups ← describe_consumer_groups reply;
  match groups with
  | [] => raise IndexError
  | group :: _ =>
      let ready := bool_decide (0 < length (members group)) in
      queue ← get_pending_queue;
      mret (mkServerStatusModel ready (Z.of_nat (len queue)))
  end.

(** One positional argument of a [logging.LogRecord]: a string, or a
    hashable object that is not a string (the status code of an access
    record). *)
Inductive arg :=
  | AStr (s : string)
  | AOther.

Definition excluded_endpoints : list string :=
  ["/health"; "/redoc"; "/docs"; "/openapi.json"].

(** [EndpointFilter.filter], on [record.args]: [None] when the record has
    no arguments, the tuple otherwise.  An object that is not a string is
    in no set of strings. *)
Definition EndpointFilter_filter (args : option (list arg)) : bool :=
  match args with
  | None => false
  | Some [] => false
  | Some l =>
      if length l <? 3 then false
      else match l !! 2 with
           | Some (AStr path) =>
               if bool_decide (path ∈ excluded_endpoints) then false else true
           | _ => true
           end
  end.

(** Between [w] and [w'] nothing but the queue key of the store and the
    trace has changed: every other key holds what it held, the producer has
    been handed nothing, and the random source has not been drawn from. *)
Definition only_queue_written (w w' : World) : Prop :=
  (forall k, k <> pending_queue_key -> redis w' !! k = redis w !! k) /\
  kafka w' = kafka w /\
  kafka_up w' = kafka_up w /\
  kafka_acks w' = kafka_acks w /\
  draws w' = draws w /\
  rng w' = rng w.

(** A store whose queue key holds a Task Record instead of a list. *)
Definition object_world : World :=
  mkWorld
    (<[pending_queue_key := VDict (mkStatusData PENDING None)]> ∅)
    true true [] (fun _ => "a") 0 [].

(** A store whose queue names the queue key itself. *)
Definition knotted_world : World :=
  mkWorld
    (<[pending_queue_key := VList ["a"; pending_queue_key]]> ∅)
    true true [] (fun _ => "b") 1 [].

(** The world a successful [push] leaves behind when the stored queue was
    [q]. *)
Definition after_push (data : ProducerModel) (topic : string) (w : World)
    (q : list string) : World :=
  let uid := rng w (draws w) in
  let m := mkMessage uid (task data) (params data) in
  let fresh := VDict (mkStatusData PENDING None) in
  mkWorld
    (<[uid := fresh]> (<[pending_queue_key := VList (q ++ [uid])]> (redis w)))
    (kafka_up w)
    (kafka_acks w)
    (kafka w ++ [(topic, m)])
    (rng w)
    (S (draws w))
    (trace w ++
       [EHash uid; ESend topic m; EGet pending_queue_key;
        ESet pending_queue_key (VList (q ++ [uid])); ESet uid fresh]).

(** An empty store and a random source whose first two draws differ. *)
Definition fresh_world : World :=
  mkWorld ∅ true true []
    (fun n => match n with O => "u0" | S _ => "u1" end) 0 [].

(** The publish of the record [push] sends in [w] fails: [send] raises, or
    the future it returns resolves to a failure. *)
Definition publish_fails (w : World) : Prop :=
  kafka_up w = false \/ kafka_acks w = false.

(** The claim that a failed publish leaves nothing behind, as the
    specification words it: when the publish fails, [push] fails, with no
    uid returned and the store as it was. *)
Definition failed_publish_persists_nothing (data : ProducerModel)
    (topic : string) (w : World) : Prop :=
  publish_fails w ->
  exists e w', push data topic w = (Raise e, w') /\ redis w' = redis w.

(** An empty store, and a broker that never acknowledges what the producer
    has taken. *)
Definition lossy_world : World :=
  mkWorld ∅ true false [] (fun _ => "a") 0 [].

(** ** Lists: popping the marked positions, last first, is a filter *)

Section Pop.
Context {A : Type}.
Implicit Types (l q : list A) (p : A -> bool).

Lemma pop_each_app (l1 l2 : list nat) q :
  pop_each (l1 ++ l2) q =
  match pop_each l1 q with
  | Ok q' => pop_each l2 q'
  | Raise e => Raise e
  end.
Proof.
  revert q. induction l1 as [|i l1 IH]; intros q; simpl; [done|].
  destruct (pop i q); [apply IH | done].
Qed.

Lemma pop_each_succ (idxs : list nat) (x : A) q :
  pop_each (map S idxs) (x :: q) =
  match pop_each idxs q with
  | Ok q' => Ok (x :: q')
  | Raise e => Raise e
  end.
Proof.
  revert q. induction idxs as [|i idxs IH]; intros q; [done|].
  cbn [map pop_each pop]. destruct (pop i q); [apply IH | done].
Qed.

Lemma marks_succ p k l : marks p (S k) l = map S (marks p k l).
Proof.
  revert k. induction l as [|x l IH]; intros k; simpl; [done|].
  destruct (p x); simpl; by rewrite IH.
Qed.

Lemma pop_each_rev_marks p q :
  pop_each (rev (marks p 0 q)) q = Ok (List.filter (fun x => negb (p x)) q).
Proof.
  induction q as [|x q IH]; [done|].
  cbn [marks List.filter]. rewrite marks_succ.
  destruct (p x); cbn [negb].
  - cbn [rev]. rewrite <- map_rev, pop_each_app, pop_each_succ, IH. done.
  - rewrite <- map_rev, pop_each_succ, IH. done.
Qed.

Lemma marks_nil_filter p k q :
  marks p k q = [] -> List.filter (fun x => negb (p x)) q = q.
Proof.
  revert k. induction q as [|x q IH]; intros k; simpl; [done|].
  destruct (p x); [done|]. simpl. intros H. f_equal. by apply (IH (S k)).
Qed.

Lemma marks_length_filter p k q :
  length (List.filter (fun x => negb (p x)) q) + length (marks p k q)
  = length q.
Proof.
  revert k. induction q as [|x q IH]; intros k; simpl; [done|].
  destruct (p x); simpl; specialize (IH (S k)); lia.
Qed.
End Pop.

(** ** Running the helpers *)

Lemma logs_nil w : logs [] w = w.
Proof. destruct w. unfold logs. simpl. by rewrite app_nil_r. Qed.

Lemma logs_logs es1 es2 w : logs es2 (logs es1 w) = logs (es1 ++ es2) w.
Proof. unfold logs. simpl. by rewrite app_assoc. Qed.

Lemma log_logs e w : log e w = logs [e] w.
Proof. done. Qed.

Lemma bind_run {A B} (m : M A) (f : A -> M B) w :
  (m ≫= f) w =
  match m w with
  | (Ok a, w') => f a w'
  | (Raise e, w') => (Raise e, w')
  end.
Proof. done. Qed.

Lemma fetch_redis_run uid w :
  fetch_redis uid w = (lookup_record (redis w) uid, log (EGet uid) w).
Proof.
  unfold fetch_redis, lookup_record. rewrite bind_run. unfold redis_get.
  destruct (redis w !! uid) as [[q|record]|]; done.
Qed.

Lemma get_pending_queue_run w :
  get_pending_queue w = (Ok (snapshot (redis w)), log (EGet pending_queue_key) w).
Proof.
  unfold get_pending_queue, snapshot. rewrite bind_run. unfold redis_get.
  destruct (redis w !! pending_queue_key); done.
Qed.

Lemma scan_finished_run items acc w :
  scan_finished items acc w =
  (scan_pure (redis w) items acc, logs (scan_reads (redis w) items) w).
Proof.
  revert acc w. induction items as [|[i u] items IH]; intros acc w.
  - simpl. by rewrite logs_nil.
  - cbn [scan_finished scan_pure scan_reads].
    rewrite bind_run, fetch_redis_run.
    destruct (lookup_record (redis w) u) as [record|e]; [|done].
    rewrite IH, log_logs, logs_logs. done.
Qed.

(** The scanning loop on a store whose queue entries are all readable. *)
Lemma scan_pure_readable s q k acc :
  forallb (readable s) q = true ->
  scan_pure s (enumerate_from k q) acc = Ok (acc ++ marks (finished s) k q).
Proof.
  revert k acc. induction q as [|u q IH]; intros k acc Hq; simpl in *.
  - by rewrite app_nil_r.
  - apply andb_prop in Hq as [Hu Hq]. unfold readable, finished in *.
    destruct (lookup_record s u) as [record|e]; [|done].
    rewrite IH by done. destruct (is_finished record); [|done].
    by rewrite <- app_assoc.
Qed.

Lemma scan_reads_readable s q k :
  forallb (readable s) q = true ->
  scan_reads s (enumerate_from k q) = map EGet q.
Proof.
  revert k. induction q as [|u q IH]; intros k Hq; simpl in *; [done|].
  apply andb_prop in Hq as [Hu Hq]. unfold readable in Hu.
  destruct (lookup_record s u); [|done]. by rewrite IH.
Qed.

(** The loop returns only when every entry was readable. *)
Lemma scan_pure_ok s q k acc idxs :
  scan_pure s (enumerate_from k q) acc = Ok idxs ->
  forallb (readable s) q = true.
Proof.
  revert k acc. induction q as [|u q IH]; intros k acc H; simpl in *; [done|].
  unfold readable at 1. destruct (lookup_record s u) as [record|e]; [|done].
  simpl. eapply IH, H.
Qed.

Lemma scan_reads_gets s items :
  exists keys, scan_reads s items = map EGet keys.
Proof.
  induction items as [|[i u] items [keys IH]]; [by exists []|].
  simpl. destruct (lookup_record s u).
  - exists (u :: keys). by rewrite IH.
  - by exists [u].
Qed.

(** ** The pruning block *)

Lemma pruned_eq_marks s q k :
  pruned s q = q <-> marks (finished s) k q = [].
Proof.
  split.
  - intros H. pose proof (marks_length_filter (finished s) k q) as L.
    fold (pruned s q) in L. rewrite H in L.
    destruct (marks (finished s) k q); [done | simpl in L; lia].
  - apply marks_nil_filter.
Qed.

Lemma prune_and_rewrite_run w q :
  snapshot (redis w) = VList q ->
  forallb (readable (redis w)) q = true ->
  prune_and_rewrite w = (Ok (VList (pruned (redis w) q)), after_prune w q).
Proof.
  intros Hsnap Hread. unfold prune_and_rewrite, after_prune.
  rewrite bind_run, get_pending_queue_run, Hsnap.
  rewrite bind_run, scan_finished_run. cbn [redis log].
  unfold enumerate. rewrite scan_pure_readable, scan_reads_readable by done.
  cbn [app]. rewrite pop_each_rev_marks. fold (pruned (redis w) q).
  rewrite log_logs, logs_logs. cbn [app].
  destruct (marks (finished (redis w)) 0 q) as [|i idxs] eqn:Hm.
  - apply (pruned_eq_marks _ _ 0) in Hm. rewrite bool_decide_eq_true_2 by done.
    done.
  - rewrite bool_decide_eq_false_2; [done|].
    intros H. apply (pruned_eq_marks _ _ 0) in H. congruence.
Qed.

Lemma lookup_record_insert_ne s k v u :
  u <> k -> lookup_record (<[k := v]> s) u = lookup_record s u.
Proof. intros H. unfold lookup_record. by rewrite lookup_insert_ne. Qed.

(** A readable uid is not the key of a stored queue. *)
Lemma readable_not_queue_key s q u :
  s !! pending_queue_key = Some (VList q) -> readable s u = true ->
  u <> pending_queue_key.
Proof.
  intros Hq Hu ->. unfold readable, lookup_record in Hu. by rewrite Hq in Hu.
Qed.

Lemma snapshot_cases s q :
  snapshot s = VList q ->
  s !! pending_queue_key = Some (VList q) \/
  (s !! pending_queue_key = None /\ q = []).
Proof.
  unfold snapshot. destruct (s !! pending_queue_key) as [v|].
  - intros ->. by left.
  - intros [= <-]. by right.
Qed.

Lemma redis_after_prune w q :
  redis (after_prune w q) =
  if bool_decide (pruned (redis w) q = q) then redis w
  else <[pending_queue_key := VList (pruned (redis w) q)]> (redis w).
Proof. unfold after_prune. by case_bool_decide. Qed.

Lemma snapshot_after_prune w q :
  snapshot (redis w) = VList q ->
  snapshot (redis (after_prune w q)) = VList (pruned (redis w) q).
Proof.
  intros Hs. rewrite redis_after_prune. case_bool_decide as E.
  - by rewrite E.
  - unfold snapshot. by rewrite lookup_insert_eq.
Qed.

Lemma pruned_elem s q u :
  In u (pruned s q) <-> In u q /\ finished s u = false.
Proof.
  unfold pruned. rewrite filter_In. by rewrite negb_true_iff.
Qed.

(** Python's [index] against membership and against [ahead]. *)
Lemma index_none uid q : index uid q = None <-> ~ In uid q.
Proof.
  induction q as [|x q IH]; simpl; [by intuition|].
  case_bool_decide as E.
  - split; [done|]. intros H. exfalso. apply H. by left.
  - destruct (index uid q).
    + split; [done|]. intros H. exfalso.
      destruct IH as [_ IH]. discriminate IH. intros Hin. apply H. by right.
    + split; [|done]. intros _ [H|H]; [done|]. by apply IH.
Qed.

Lemma index_ahead uid q : In uid q -> index uid q = Some (length (ahead uid q)).
Proof.
  induction q as [|x q IH]; simpl; [done|].
  case_bool_decide as E; [done|].
  intros [H|H]; [done|]. by rewrite IH.
Qed.

Lemma ahead_filter (p : string -> bool) uid q :
  p uid = true ->
  ahead uid (List.filter p q) = List.filter p (ahead uid q).
Proof.
  intros Hp. induction q as [|x q IH]; simpl; [done|].
  case_bool_decide as E.
  - subst x. rewrite Hp. simpl. by rewrite bool_decide_eq_true_2.
  - simpl. destruct (p x); simpl; [|exact IH].
    rewrite bool_decide_eq_false_2 by done. by rewrite IH.
Qed.

(** ** Running [get_status] *)

Lemma get_status_finished_run uid w record :
  lookup_record (redis w) uid = Ok record ->
  sd_status record = FINISHED ->
  get_status uid w =
  (Ok (mkStatusModel FINISHED 0 (sd_data record)), log (EGet uid) w).
Proof.
  intros Hrec Hfin. unfold get_status.
  rewrite bind_run, fetch_redis_run, Hrec. unfold is_finished.
  rewrite bool_decide_eq_true_2 by done. by rewrite Hfin.
Qed.

Lemma get_status_pending_run uid w record q :
  lookup_record (redis w) uid = Ok record ->
  sd_status record <> FINISHED ->
  snapshot (redis w) = VList q ->
  forallb (readable (redis w)) q = true ->
  get_status uid w =
  (Ok (mkStatusModel (sd_status record)
         (lag_in uid (pruned (redis w) q)) (sd_data record)),
   after_prune (log (EGet uid) w) q).
Proof.
  intros Hrec Hfin Hsnap Hread. unfold get_status.
  rewrite bind_run, fetch_redis_run, Hrec. unfold is_finished.
  rewrite bool_decide_eq_false_2 by done.
  rewrite !bind_run, (prune_and_rewrite_run _ q) by done.
  cbn [redis log]. unfold lag_in.
  destruct (index uid (pruned (redis w) q)); done.
Qed.

(** ** C1: a finished uid and the queue *)

(** C1, as stated, fails: in the end-to-end scenario the query for the
    finished [abc123] answers [finished] with lag 0 and leaves [abc123] in
    the stored queue, because the finished branch never reaches the
    pruning block. *)
Lemma finished_query_keeps_uid_in_queue :
  ~ finished_query_clears "abc123" e2e_world.
Proof.
  intros H.
  apply (H (mkStatusData FINISHED (Some "url")) eq_refl eq_refl
           (mkStatusModel FINISHED 0 (Some "url"))
           (log (EGet "abc123") e2e_world) eq_refl eq_refl
           ["abc123"] eq_refl).
  by left.
Qed.

(** C1, amended: a finished uid [U] leaves the queue when a status query
    for a uid [V] that is not finished runs.  On a store whose queue is a
    list of readable uids, [get_status V] returns, [U]'s record is still
    the finished one, and the queue snapshot taken afterwards does not
    hold [U]. *)
Theorem pending_query_clears_finished V U w rv ru q :
  lookup_record (redis w) V = Ok rv -> sd_status rv <> FINISHED ->
  lookup_record (redis w) U = Ok ru -> sd_status ru = FINISHED ->
  snapshot (redis w) = VList q ->
  forallb (readable (redis w)) q = true ->
  exists r w',
    get_status V w = (Ok r, w') /\
    lookup_record (redis w') U = Ok ru /\
    snapshot (redis w') = VList (pruned (redis w) q) /\
    ~ In U (pruned (redis w) q).
Proof.
  intros HV HVn HU HUf Hsnap Hread.
  eexists _, _. split; [by apply (get_status_pending_run V w rv q)|].
  assert (Hfin : finished (redis w) U = true).
  { unfold finished, is_finished. rewrite HU. by apply bool_decide_eq_true_2. }
  split; [|split].
  - rewrite redis_after_prune. cbn [redis log]. case_bool_decide; [done|].
    rewrite lookup_record_insert_ne; [done|]. intros ->.
    apply snapshot_cases in Hsnap as [Hs|[Hs _]];
      unfold lookup_record in HU; rewrite Hs in HU; [done|].
    injection HU as <-. done.
  - by apply (snapshot_after_prune (log (EGet V) w) q).
  - rewrite pruned_elem. intros [_ Hn]. congruence.
Qed.

Lemma pending_query_clears_finished_witness :
  exists r w',
    get_status "c" busy_world = (Ok r, w') /\
    lookup_record (redis w') "b" = Ok (mkStatusData FINISHED (Some "url")) /\
    snapshot (redis w') = VList (pruned (redis busy_world) ["a"; "b"; "c"]) /\
    ~ In "b" (pruned (redis busy_world) ["a"; "b"; "c"]).
Proof.
  apply (pending_query_clears_finished "c" "b" busy_world
           (mkStatusData WORKING None) (mkStatusData FINISHED (Some "url"))
           ["a"; "b"; "c"]); first [reflexivity | discriminate].
Defined.

(** ** C4: a finished uid has lag 0 *)

(** C4: when the Task Record of [uid] says [finished], [get_status uid]
    returns that status with [pending = 0] and the record's data, whatever
    the queue holds; its only client call is the read of the record under
    [uid], so the store, and with it the queue, is left as it was. *)
Theorem get_status_finished uid w record :
  lookup_record (redis w) uid = Ok record ->
  sd_status record = FINISHED ->
  get_status uid w =
    (Ok (mkStatusModel FINISHED 0 (sd_data record)), log (EGet uid) w) /\
  redis (log (EGet uid) w) = redis w /\
  trace (log (EGet uid) w) = trace w ++ [EGet uid].
Proof.
  intros Hrec Hfin. split; [by apply get_status_finished_run | done].
Qed.

Lemma get_status_finished_witness :
  get_status "b" busy_world =
    (Ok (mkStatusModel FINISHED 0 (Some "url")), log (EGet "b") busy_world) /\
  redis (log (EGet "b") busy_world) = redis busy_world /\
  trace (log (EGet "b") busy_world) = trace busy_world ++ [EGet "b"].
Proof.
  apply (get_status_finished "b" busy_world
           (mkStatusData FINISHED (Some "url"))); reflexivity.
Defined.

(** ** C3: what the pruning block does *)

(** C3: on a stored queue [q] of readable uids the pruning block returns
    [q] filtered by "the Task Record is not finished": a uid survives
    exactly when it was in [q] and is not finished, the survivors keep
    their order, and the filtered list is written back under the queue key
    exactly when it differs from [q], that is when something was removed;
    otherwise the block only reads. *)
Theorem prune_and_rewrite_spec w q :
  snapshot (redis w) = VList q ->
  forallb (readable (redis w)) q = true ->
  let q' := List.filter (fun u => negb (finished (redis w) u)) q in
  let reads := EGet pending_queue_key :: map EGet q in
  exists w',
    prune_and_rewrite w = (Ok (VList q'), w') /\
    (forall u, In u q' <-> In u q /\ finished (redis w) u = false) /\
    sublist q' q /\
    (length q' = length q ->
       redis w' = redis w /\ trace w' = trace w ++ reads) /\
    (length q' < length q ->
       redis w' = <[pending_queue_key := VList q']> (redis w) /\
       trace w' = trace w ++ reads ++ [ESet pending_queue_key (VList q')]) /\
    (length q' = length q \/ length q' < length q).
Proof.
  intros Hsnap Hread q' reads. exists (after_prune w q).
  assert (Hlen : length q' + length (marks (finished (redis w)) 0 q)
                 = length q) by apply marks_length_filter.
  split; [by apply prune_and_rewrite_run|].
  split; [apply pruned_elem|].
  split.
  { subst q'. clear. induction q as [|x q IH]; simpl; [constructor|].
    destruct (negb _); by constructor. }
  unfold after_prune. fold (pruned (redis w) q). fold q' in Hlen |- *.
  split; [|split].
  - intros E. case_bool_decide as D; [done|]. exfalso. apply D.
    apply (pruned_eq_marks _ _ 0).
    destruct (marks (finished (redis w)) 0 q); [done | simpl in Hlen; lia].
  - intros E. case_bool_decide as D.
    + unfold pruned in D. fold q' in D. rewrite D in E. lia.
    + split; [done|]. simpl. by rewrite <- app_assoc.
  - lia.
Qed.

Lemma prune_and_rewrite_spec_witness :
  let q' := List.filter (fun u => negb (finished (redis busy_world) u))
              ["a"; "b"; "c"] in
  let reads := EGet pending_queue_key :: map EGet ["a"; "b"; "c"] in
  exists w',
    prune_and_rewrite busy_world = (Ok (VList q'), w') /\
    (forall u, In u q' <->
       In u ["a"; "b"; "c"] /\ finished (redis busy_world) u = false) /\
    sublist q' ["a"; "b"; "c"] /\
    (length q' = 3 ->
       redis w' = redis busy_world /\ trace w' = trace busy_world ++ reads) /\
    (length q' < 3 ->
       redis w' = <[pending_queue_key := VList q']> (redis busy_world) /\
       trace w' =
         trace busy_world ++ reads ++ [ESet pending_queue_key (VList q')]) /\
    (length q' = 3 \/ length q' < 3).
Proof.
  apply (prune_and_rewrite_spec busy_world ["a"; "b"; "c"]); reflexivity.
Defined.

(** ** C5, C9, C10: the lag of a uid that is not finished *)

(** C5: when the Task Record of [uid] is not finished and [uid] is not in
    the pruned queue, [get_status uid] does not fail: it returns the
    record's status and data with [pending] the length of the pruned queue
    minus one. *)
Theorem get_status_fallback uid w record q :
  lookup_record (redis w) uid = Ok record ->
  sd_status record <> FINISHED ->
  snapshot (redis w) = VList q ->
  forallb (readable (redis w)) q = true ->
  ~ In uid (pruned (redis w) q) ->
  exists w',
    get_status uid w =
    (Ok (mkStatusModel (sd_status record)
           (Z.of_nat (length (pruned (redis w) q)) - 1) (sd_data record)),
     w').
Proof.
  intros Hrec Hfin Hsnap Hread Hnot. eexists.
  rewrite (get_status_pending_run uid w record q) by done.
  unfold lag_in. apply index_none in Hnot. by rewrite Hnot.
Qed.

Lemma get_status_fallback_witness :
  exists w',
    get_status "zz" busy_world =
    (Ok (mkStatusModel PENDING
           (Z.of_nat (length (pruned (redis busy_world) ["a"; "b"; "c"])) - 1)
           None),
     w').
Proof.
  apply (get_status_fallback "zz" busy_world (mkStatusData PENDING None)
           ["a"; "b"; "c"]); try reflexivity; [discriminate|].
  vm_compute. intros [H|[H|[]]]; discriminate H.
Defined.

(** C9: when the Task Record of [uid] is not finished and [uid] is in the
    stored queue, pruning keeps [uid], [queue.index] finds it, and
    [pending] is the number of uids ahead of [uid] in the stored queue
    whose Task Record is not finished. *)
Theorem get_status_lag_counts_unfinished_ahead uid w record q :
  lookup_record (redis w) uid = Ok record ->
  sd_status record <> FINISHED ->
  snapshot (redis w) = VList q ->
  forallb (readable (redis w)) q = true ->
  In uid q ->
  let unfinished_ahead :=
    List.filter (fun u => negb (finished (redis w) u)) (ahead uid q) in
  In uid (pruned (redis w) q) /\
  index uid (pruned (redis w) q) = Some (length unfinished_ahead) /\
  exists w',
    get_status uid w =
    (Ok (mkStatusModel (sd_status record)
           (Z.of_nat (length unfinished_ahead)) (sd_data record)),
     w') /\
    snapshot (redis w') = VList (pruned (redis w) q).
Proof.
  intros Hrec Hfin Hsnap Hread Hin ua.
  assert (Hn : finished (redis w) uid = false).
  { unfold finished, is_finished. rewrite Hrec.
    by apply bool_decide_eq_false_2. }
  assert (Hin' : In uid (pruned (redis w) q)) by by apply pruned_elem.
  assert (Hidx : index uid (pruned (redis w) q) = Some (length ua)).
  { rewrite (index_ahead _ _ Hin'). unfold pruned, ua.
    rewrite ahead_filter; [done|]. by rewrite Hn. }
  split; [done|]. split; [done|]. eexists. split.
  - rewrite (get_status_pending_run uid w record q) by done.
    unfold lag_in. by rewrite Hidx.
  - by apply (snapshot_after_prune (log (EGet uid) w) q).
Qed.

Lemma get_status_lag_counts_unfinished_ahead_witness :
  let unfinished_ahead :=
    List.filter (fun u => negb (finished (redis busy_world) u))
      (ahead "c" ["a"; "b"; "c"]) in
  In "c" (pruned (redis busy_world) ["a"; "b"; "c"]) /\
  index "c" (pruned (redis busy_world) ["a"; "b"; "c"])
    = Some (length unfinished_ahead) /\
  exists w',
    get_status "c" busy_world =
    (Ok (mkStatusModel WORKING (Z.of_nat (length unfinished_ahead)) None),
     w') /\
    snapshot (redis w') = VList (pruned (redis busy_world) ["a"; "b"; "c"]).
Proof.
  apply (get_status_lag_counts_unfinished_ahead "c" busy_world
           (mkStatusData WORKING None) ["a"; "b"; "c"]);
    try reflexivity; [discriminate|].
  right. right. by left.
Defined.

(** C10: [pending] can be negative.  When the Task Record of [uid] is not
    finished, [uid] is not in the queue and the pruned queue is empty,
    [get_status uid] returns [pending = -1]. *)
Theorem get_status_negative_pending uid w record q :
  lookup_record (redis w) uid = Ok record ->
  sd_status record <> FINISHED ->
  snapshot (redis w) = VList q ->
  forallb (readable (redis w)) q = true ->
  ~ In uid q ->
  pruned (redis w) q = [] ->
  exists w',
    get_status uid w =
    (Ok (mkStatusModel (sd_status record) (-1) (sd_data record)), w').
Proof.
  intros Hrec Hfin Hsnap Hread Hnot Hempty. eexists.
  rewrite (get_status_pending_run uid w record q) by done.
  by rewrite Hempty.
Qed.

Lemma get_status_negative_pending_witness :
  exists w',
    get_status "zz" e2e_world =
    (Ok (mkStatusModel PENDING (-1) None), w').
Proof.
  apply (get_status_negative_pending "zz" e2e_world
           (mkStatusData PENDING None) ["abc123"]);
    try reflexivity; [discriminate|].
  intros [H|[]]. discriminate H.
Defined.

(** ** The store after pruning *)

(** Pruning leaves the record of every queued uid as it was. *)
Lemma lookup_record_after_prune w q u :
  snapshot (redis w) = VList q ->
  forallb (readable (redis w)) q = true ->
  In u q ->
  lookup_record (redis (after_prune w q)) u = lookup_record (redis w) u.
Proof.
  intros Hs Hr Hin. rewrite redis_after_prune. case_bool_decide; [done|].
  apply snapshot_cases in Hs as [Hs|[_ ->]]; [|done].
  apply lookup_record_insert_ne. eapply readable_not_queue_key; [done|].
  rewrite forallb_forall in Hr. by apply Hr.
Qed.

Lemma filter_idem {A} (f : A -> bool) (g : A -> bool) (l : list A) :
  (forall x, In x l -> g x = f x) ->
  List.filter g (List.filter f l) = List.filter f l.
Proof.
  induction l as [|x l IH]; intros H; simpl; [done|].
  destruct (f x) eqn:E; simpl.
  - rewrite (H x) by (by left). rewrite E. f_equal. apply IH.
    intros y Hy. apply H. by right.
  - apply IH. intros y Hy. apply H. by right.
Qed.

Lemma pruned_after_prune w q :
  snapshot (redis w) = VList q ->
  forallb (readable (redis w)) q = true ->
  forallb (readable (redis (after_prune w q))) (pruned (redis w) q) = true /\
  pruned (redis (after_prune w q)) (pruned (redis w) q) = pruned (redis w) q.
Proof.
  intros Hs Hr. split.
  - apply forallb_forall. intros u Hu. apply pruned_elem in Hu as [Hu _].
    unfold readable. rewrite lookup_record_after_prune by done.
    rewrite forallb_forall in Hr. by apply Hr.
  - unfold pruned. apply filter_idem. intros u Hu. unfold finished.
    by rewrite lookup_record_after_prune.
Qed.

(** The three ways the pruning block can go, by the store it runs on:
    a list of readable uids is pruned; anything that raises has only read;
    a stored object without finished keys is handed back untouched. *)
Lemma prune_and_rewrite_cases s :
  (exists q, snapshot s = VList q /\ forallb (readable s) q = true) \/
  (exists e keys, forall w, redis w = s ->
     prune_and_rewrite w = (Raise e, logs (map EGet keys) w)) \/
  (exists record keys, snapshot s = VDict record /\ forall w, redis w = s ->
     prune_and_rewrite w = (Ok (VDict record), logs (map EGet keys) w)).
Proof.
  destruct (snapshot s) as [q|record] eqn:Hs.
  - destruct (scan_pure s (enumerate q) []) as [idxs|e] eqn:Hscan.
    + left. exists q. split; [done|]. by eapply scan_pure_ok.
    + right. left. destruct (scan_reads_gets s (enumerate q)) as [keys Hk].
      exists e, (pending_queue_key :: keys). intros w <-.
      unfold prune_and_rewrite.
      rewrite bind_run, get_pending_queue_run, Hs.
      rewrite bind_run, scan_finished_run. cbn [redis log].
      rewrite Hscan, Hk, log_logs, logs_logs. done.
  - right.
    destruct (scan_reads_gets s (enumerate ["status"; "data"])) as [keys Hk].
    destruct (scan_pure s (enumerate ["status"; "data"]) [])
      as [[|i idxs]|e] eqn:Hscan.
    + right. exists record, (pending_queue_key :: keys). split; [done|].
      intros w <-. unfold prune_and_rewrite.
      rewrite bind_run, get_pending_queue_run, Hs.
      rewrite bind_run, scan_finished_run. cbn [redis log].
      rewrite Hscan, Hk, log_logs, logs_logs. done.
    + left. exists KeyError, (pending_queue_key :: keys).
      intros w <-. unfold prune_and_rewrite.
      rewrite bind_run, get_pending_queue_run, Hs.
      rewrite bind_run, scan_finished_run. cbn [redis log].
      rewrite Hscan, Hk, log_logs, logs_logs. done.
    + left. exists e, (pending_queue_key :: keys).
      intros w <-. unfold prune_and_rewrite.
      rewrite bind_run, get_pending_queue_run, Hs.
      rewrite bind_run, scan_finished_run. cbn [redis log].
      rewrite Hscan, Hk, log_logs, logs_logs. done.
Qed.

(** ** C8: pruning twice *)

(** C8: in every world, a second run of the pruning block right after the
    first returns what the first returned, changes nothing but the trace,
    to which it appends reads only, and the queue the first run returned is
    the stored queue the second run starts from, so nothing is left for it
    to remove. *)
Theorem prune_and_rewrite_idempotent w :
  let first := prune_and_rewrite w in
  let second := prune_and_rewrite (snd first) in
  fst second = fst first /\
  (exists keys, snd second = logs (map EGet keys) (snd first)) /\
  (forall v, fst first = Ok v -> snapshot (redis (snd first)) = v).
Proof.
  cbv zeta.
  destruct (prune_and_rewrite_cases (redis w))
    as [(q & Hs & Hr)|[(e & keys & H)|(record & keys & Hs & H)]].
  - rewrite (prune_and_rewrite_run w q) by done. cbn [fst snd].
    pose proof (snapshot_after_prune w q Hs) as Hs1.
    destruct (pruned_after_prune w q Hs Hr) as [Hr1 Hp1].
    rewrite (prune_and_rewrite_run _ _ Hs1 Hr1), Hp1. cbn [fst snd].
    split; [done|]. split; [|by intros v [= <-]].
    exists (pending_queue_key :: pruned (redis w) q).
    unfold after_prune at 1. rewrite Hp1.
    by rewrite bool_decide_eq_true_2.
  - rewrite (H w eq_refl). cbn [fst snd].
    rewrite (H (logs (map EGet keys) w) eq_refl).
    split; [done|]. split; [by exists keys | done].
  - rewrite (H w eq_refl). cbn [fst snd].
    rewrite (H (logs (map EGet keys) w) eq_refl).
    split; [done|]. split; [by exists keys | by intros v [= <-]].
Qed.

(** ** C2 and C7: submitting a task *)

(** The store [push] leaves behind is laid out like the one it found: the
    queue is a list of readable uids, the new uid among them. *)
Lemma store_after_push s q uid :
  snapshot s = VList q ->
  forallb (readable s) q = true ->
  uid <> pending_queue_key ->
  let s' := <[uid := VDict (mkStatusData PENDING None)]>
              (<[pending_queue_key := VList (q ++ [uid])]> s) in
  lookup_record s' uid = Ok (mkStatusData PENDING None) /\
  snapshot s' = VList (q ++ [uid]) /\
  forallb (readable s') (q ++ [uid]) = true.
Proof.
  intros Hs Hr Hne s'.
  assert (Hrec : lookup_record s' uid = Ok (mkStatusData PENDING None)).
  { unfold lookup_record, s'. by rewrite lookup_insert_eq. }
  split; [done|]. split.
  - unfold snapshot, s'. rewrite lookup_insert_ne by done.
    by rewrite lookup_insert_eq.
  - rewrite forallb_app. apply andb_true_intro. split.
    + apply forallb_forall. intros u Hu. rewrite forallb_forall in Hr.
      specialize (Hr u Hu). unfold readable, lookup_record, s' in *.
      destruct (decide (u = uid)) as [->|Hu1];
        [by rewrite lookup_insert_eq|].
      rewrite lookup_insert_ne by done.
      rewrite lookup_insert_ne; [done|]. intros E. subst u.
      apply snapshot_cases in Hs as [Hs|[_ ->]]; [|done].
      by rewrite Hs in Hr.
    + simpl. unfold readable. by rewrite Hrec.
Qed.

(** C2, as stated, fails: a publish can fail after [send] has returned, and
    [push] never looks at the future that would say so.  With a broker that
    does not acknowledge, the publish fails, yet [push] appends the uid to
    the queue, writes the Task Record and returns the uid. *)
Lemma push_persists_after_lost_publish :
  ~ failed_publish_persists_nothing
      (mkProducerModel "resize" "w100h100") "jobs" lossy_world.
Proof.
  intros H. destruct (H (or_intror eq_refl)) as (e & w' & Hpush & _).
  vm_compute in Hpush. discriminate Hpush.
Qed.

(** C2, amended: when [send] raises, [push] raises with it and returns no
    uid; nothing was written to the store (no queue entry, no Task Record)
    and the producer was handed nothing.  The only client call made is the
    draw of the uid. *)
Theorem push_publish_failure data topic w :
  kafka_up w = false ->
  exists w',
    push data topic w = (Raise KafkaError, w') /\
    redis w' = redis w /\
    kafka w' = kafka w /\
    trace w' = trace w ++ [EHash (rng w (draws w))].
Proof.
  intros Hdown. eexists. unfold push.
  rewrite bind_run. unfold random_hash. cbn zeta.
  rewrite bind_run. unfold kafka_send. cbn [kafka_up log with_draws].
  rewrite Hdown. done.
Qed.

Lemma push_publish_failure_witness :
  exists w',
    push (mkProducerModel "resize" "w100h100") "jobs" down_world
      = (Raise KafkaError, w') /\
    redis w' = redis down_world /\
    kafka w' = kafka down_world /\
    trace w' = trace down_world ++ [EHash "a"].
Proof.
  apply (push_publish_failure (mkProducerModel "resize" "w100h100") "jobs"
           down_world).
  reflexivity.
Defined.

(** C7: with [send] taking the record and the stored queue a list [q] of
    readable uids, [push] draws a uid, sends one message
    [{uid, task, params}] on the topic the caller named, reads the queue,
    writes it back with the uid appended, writes the Task Record
    [{status: pending, data: null}] under the uid, in this order, and
    returns the uid.  A [get_status] of that uid right after returns status
    [pending] and no data. *)
Theorem push_then_status data topic w q :
  kafka_up w = true ->
  snapshot (redis w) = VList q ->
  forallb (readable (redis w)) q = true ->
  rng w (draws w) <> pending_queue_key ->
  let uid := rng w (draws w) in
  let m := mkMessage uid (task data) (params data) in
  let fresh := VDict (mkStatusData PENDING None) in
  exists w',
    push data topic w = (Ok (mkProducerResponseModel uid), w') /\
    trace w' = trace w ++
      [EHash uid; ESend topic m; EGet pending_queue_key;
       ESet pending_queue_key (VList (q ++ [uid])); ESet uid fresh] /\
    kafka w' = kafka w ++ [(topic, m)] /\
    draws w' = S (draws w) /\
    redis w' =
      <[uid := fresh]> (<[pending_queue_key := VList (q ++ [uid])]> (redis w)) /\
    exists lag w'',
      get_status uid w' = (Ok (mkStatusModel PENDING lag None), w'').
Proof.
  intros Hup Hs Hr Hne uid m fresh.
  set (s' := <[uid := fresh]>
               (<[pending_queue_key := VList (q ++ [uid])]> (redis w))).
  assert (Hpush : exists w', push data topic w
                    = (Ok (mkProducerResponseModel uid), w') /\
            trace w' = trace w ++
              [EHash uid; ESend topic m; EGet pending_queue_key;
               ESet pending_queue_key (VList (q ++ [uid])); ESet uid fresh] /\
            kafka w' = kafka w ++ [(topic, m)] /\
            draws w' = S (draws w) /\ redis w' = s').
  { eexists. unfold push.
    rewrite bind_run. unfold random_hash. cbn zeta.
    rewrite bind_run. unfold kafka_send. cbn [kafka_up log with_draws].
    rewrite Hup. rewrite bind_run, get_pending_queue_run.
    cbn [redis log with_kafka with_draws]. rewrite Hs.
    split; [reflexivity|]. cbn. rewrite <- !app_assoc. done. }
  destruct Hpush as (w' & Hpush & Htr & Hk & Hd & Hredis).
  exists w'. repeat (split; [done|]).
  destruct (store_after_push (redis w) q uid Hs Hr Hne) as (Hrec & Hs' & Hr').
  fold fresh in Hrec, Hs', Hr'. fold s' in Hrec, Hs', Hr'.
  rewrite <- Hredis in Hrec, Hs', Hr'.
  eexists _, _.
  by rewrite (get_status_pending_run uid w' _ _ Hrec) by done.
Qed.

Lemma push_then_status_witness :
  let uid := "def456" in
  let m := mkMessage uid "resize" "w100h100" in
  let fresh := VDict (mkStatusData PENDING None) in
  exists w',
    push (mkProducerModel "resize" "w100h100") "jobs" e2e_world
      = (Ok (mkProducerResponseModel uid), w') /\
    trace w' = trace e2e_world ++
      [EHash uid; ESend "jobs" m; EGet pending_queue_key;
       ESet pending_queue_key (VList (["abc123"] ++ [uid])); ESet uid fresh] /\
    kafka w' = kafka e2e_world ++ [("jobs", m)] /\
    draws w' = S (draws e2e_world) /\
    redis w' =
      <[uid := fresh]>
        (<[pending_queue_key := VList (["abc123"] ++ [uid])]>
           (redis e2e_world)) /\
    exists lag w'',
      get_status uid w' = (Ok (mkStatusModel PENDING lag None), w'').
Proof.
  apply (push_then_status (mkProducerModel "resize" "w100h100") "jobs"
           e2e_world ["abc123"]); try reflexivity.
  discriminate.
Defined.

(** ** C6: a uid the store does not know *)

Lemma lookup_record_insert_fresh s uid k :
  s !! uid = None ->
  lookup_record (<[uid := VDict (mkStatusData PENDING None)]> s) k
  = lookup_record s k.
Proof.
  intros Hnone. unfold lookup_record.
  destruct (decide (k = uid)) as [->|Hk].
  - by rewrite lookup_insert_eq, Hnone.
  - by rewrite lookup_insert_ne.
Qed.

(** C6: when nothing is stored under [uid], [get_status uid] does not fail
    and returns status [pending] with no data; and the answer is the one it
    gives when the store holds a fresh [{status: pending, data: null}]
    record under [uid]. *)
Theorem get_status_unknown uid w q :
  redis w !! uid = None ->
  snapshot (redis w) = VList q ->
  forallb (readable (redis w)) q = true ->
  let fresh := VDict (mkStatusData PENDING None) in
  (exists lag w',
     get_status uid w = (Ok (mkStatusModel PENDING lag None), w')) /\
  (uid <> pending_queue_key ->
   fst (get_status uid (with_redis (<[uid := fresh]> (redis w)) w))
   = fst (get_status uid w)).
Proof.
  intros Hnone Hs Hr fresh.
  assert (Hrec : lookup_record (redis w) uid = Ok (mkStatusData PENDING None)).
  { unfold lookup_record. by rewrite Hnone. }
  split.
  - eexists _, _. by rewrite (get_status_pending_run uid w _ q Hrec).
  - intros Hne. set (s' := <[uid := fresh]> (redis w)).
    assert (Hl : forall k, lookup_record s' k = lookup_record (redis w) k)
      by (intros k; by apply lookup_record_insert_fresh).
    assert (Hs' : snapshot s' = VList q).
    { unfold snapshot, s'. by rewrite lookup_insert_ne. }
    assert (Hr' : forallb (readable s') q = true).
    { apply forallb_forall. intros u Hu. rewrite forallb_forall in Hr.
      unfold readable. rewrite Hl. by apply Hr. }
    assert (Hp : pruned s' q = pruned (redis w) q).
    { unfold pruned. apply filter_ext. intros u. unfold finished.
      by rewrite Hl. }
    rewrite (get_status_pending_run uid w _ q Hrec) by done.
    rewrite (get_status_pending_run uid (with_redis s' w)
               (mkStatusData PENDING None) q);
      cbn [redis with_redis]; [| by rewrite Hl | done | done | done].
    cbn [fst]. by rewrite Hp.
Qed.

Lemma get_status_unknown_witness :
  let fresh := VDict (mkStatusData PENDING None) in
  (exists lag w',
     get_status "never-submitted" busy_world
     = (Ok (mkStatusModel PENDING lag None), w')) /\
  ("never-submitted" <> pending_queue_key ->
   fst (get_status "never-submitted"
          (with_redis (<["never-submitted" := fresh]> (redis busy_world))
             busy_world))
   = fst (get_status "never-submitted" busy_world)).
Proof.
  apply (get_status_unknown "never-submitted" busy_world ["a"; "b"; "c"]);
    reflexivity.
Defined.

(** ** The layout is an invariant of the handlers *)

Lemma empty_well_laid_out : well_laid_out ∅.
Proof. by exists []. Qed.

Lemma get_status_keeps_layout uid w :
  well_laid_out (redis w) ->
  well_laid_out (redis (snd (get_status uid w))).
Proof.
  intros (q & Hs & Hr).
  destruct (lookup_record (redis w) uid) as [record|e] eqn:Hrec.
  - destruct (decide (sd_status record = FINISHED)) as [Hfin|Hfin].
    + rewrite (get_status_finished_run uid w record) by done. by exists q.
    + rewrite (get_status_pending_run uid w record q) by done.
      exists (pruned (redis w) q). split.
      * by apply (snapshot_after_prune (log (EGet uid) w) q).
      * by apply (pruned_after_prune (log (EGet uid) w) q).
  - unfold get_status. rewrite bind_run, fetch_redis_run, Hrec. by exists q.
Qed.

Lemma push_keeps_layout data topic w :
  well_laid_out (redis w) ->
  rng w (draws w) <> pending_queue_key ->
  well_laid_out (redis (snd (push data topic w))).
Proof.
  intros (q & Hs & Hr) Hne. unfold push.
  rewrite bind_run. unfold random_hash. cbn zeta.
  rewrite bind_run. unfold kafka_send. cbn [kafka_up log with_draws].
  destruct (kafka_up w); [|by exists q].
  rewrite bind_run, get_pending_queue_run.
  cbn [redis log with_kafka with_draws]. rewrite Hs.
  destruct (store_after_push (redis w) q _ Hs Hr Hne) as (_ & Hs' & Hr').
  by exists (q ++ [rng w (draws w)]).
Qed.

(** ** The list operations on their own *)

(** X17: [queue.pop(idx)] within bounds removes the element at [idx] and nothing
    else; out of bounds it raises [IndexError]. *)
Theorem pop_bounds {A} (idx : nat) (l : list A) :
  pop idx l =
  if idx <? length l then Ok (take idx l ++ drop (S idx) l)
  else Raise IndexError.
Proof.
  revert idx. induction l as [|x l IH]; intros idx; [by destruct idx|].
  destruct idx as [|i]; [done|].
  cbn [pop length take drop app]. rewrite IH.
  change (S i <? S (length l)) with (i <? length l).
  by destruct (i <? length l).
Qed.

(** X18: [queue.index(uid)] is the first position that holds [uid]: it returns
    [i] exactly when [uid] sits at [i] and at no earlier position, and it
    fails exactly when [uid] is not in the list. *)
Theorem index_first_occurrence (uid : string) (q : list string) :
  (forall i, index uid q = Some i <->
     q !! i = Some uid /\ forall j, j < i -> q !! j <> Some uid) /\
  (index uid q = None <-> ~ In uid q).
Proof.
  split; [|apply index_none].
  induction q as [|x q IH]; intros i.
  - simpl. split; [done|]. by intros [H _].
  - cbn [index]. case_bool_decide as E.
    + subst x. split.
      * intros [= <-]. split; [done|]. intros j Hj. lia.
      * intros [Hi Hfirst]. destruct i as [|i]; [done|].
        exfalso. by apply (Hfirst 0); [lia|].
    + destruct i as [|i].
      * split; [by destruct (index uid q)|].
        intros [[= Hx] _]. done.
      * specialize (IH i). destruct (index uid q) as [k|].
        -- split.
           ++ intros [= <-]. destruct IH as [IH _].
              destruct (IH eq_refl) as [Hk Hfirst]. split; [done|].
              intros [|j] Hj; [by intros [= Hx]|].
              apply Hfirst. lia.
           ++ intros [Hi Hfirst]. destruct IH as [_ IH]. f_equal.
              assert (Some k = Some i) as [= ->]; [|done].
              apply IH. split; [done|]. intros j Hj.
              apply (Hfirst (S j)). lia.
        -- split; [done|]. intros [Hi Hfirst]. destruct IH as [_ IH].
           exfalso. enough (@None nat = Some i) by done.
           apply IH. split; [done|]. intros j Hj.
           apply (Hfirst (S j)). lia.
Qed.

(** ** What a status query leaves alone *)

Lemma only_queue_written_logs es w : only_queue_written w (logs es w).
Proof. by repeat split. Qed.

Lemma only_queue_written_log e w w' :
  only_queue_written (log e w) w' -> only_queue_written w w'.
Proof. done. Qed.

Lemma only_queue_written_after_prune w q :
  only_queue_written w (after_prune w q).
Proof.
  unfold after_prune. case_bool_decide; [by repeat split|].
  split; [|done]. intros k Hk. cbn. by rewrite lookup_insert_ne.
Qed.

Lemma prune_and_rewrite_only_queue_written w :
  only_queue_written w (snd (prune_and_rewrite w)).
Proof.
  destruct (prune_and_rewrite_cases (redis w))
    as [(q & Hs & Hr)|[(e & keys & H)|(record & keys & Hs & H)]].
  - rewrite (prune_and_rewrite_run w q) by done.
    apply only_queue_written_after_prune.
  - rewrite (H w eq_refl). apply only_queue_written_logs.
  - rewrite (H w eq_refl). apply only_queue_written_logs.
Qed.

(** [get_status] on a uid that is not finished, in terms of the pruning
    block it runs. *)
Lemma get_status_unfinished_run uid w record :
  lookup_record (redis w) uid = Ok record ->
  sd_status record <> FINISHED ->
  get_status uid w =
  match prune_and_rewrite (log (EGet uid) w) with
  | (Ok (VList q'), w') =>
      (Ok (mkStatusModel (sd_status record) (lag_in uid q') (sd_data record)),
       w')
  | (Ok (VDict _), w') =>
      (Ok (mkStatusModel (sd_status record) 1 (sd_data record)), w')
  | (Raise e, w') => (Raise e, w')
  end.
Proof.
  intros Hrec Hfin. unfold get_status.
  rewrite bind_run, fetch_redis_run, Hrec. unfold is_finished.
  rewrite bool_decide_eq_false_2 by done. rewrite !bind_run.
  destruct (prune_and_rewrite (log (EGet uid) w)) as [[[q'|r]|e] w'];
    [|done|done].
  unfold lag_in. by destruct (index uid q').
Qed.

Lemma get_status_raise_run uid w e :
  lookup_record (redis w) uid = Raise e ->
  get_status uid w = (Raise e, log (EGet uid) w).
Proof.
  intros Hrec. unfold get_status. by rewrite bind_run, fetch_redis_run, Hrec.
Qed.

(** X1: A status query never touches a Task Record, never publishes and never
    draws a uid: in every world, whatever it returns or raises, the only
    key of the store it can have written is the queue key. *)
Theorem get_status_only_queue_written uid w :
  only_queue_written w (snd (get_status uid w)).
Proof.
  destruct (lookup_record (redis w) uid) as [record|e] eqn:Hrec.
  - destruct (decide (sd_status record = FINISHED)) as [Hfin|Hfin].
    + rewrite (get_status_finished_run uid w record) by done.
      apply (only_queue_written_logs [EGet uid]).
    + rewrite (get_status_unfinished_run uid w record) by done.
      apply (only_queue_written_log (EGet uid)).
      pose proof (prune_and_rewrite_only_queue_written (log (EGet uid) w)) as H.
      by destruct (prune_and_rewrite (log (EGet uid) w)) as [[[q'|r]|e] w'].
  - rewrite (get_status_raise_run uid w e) by done.
    apply (only_queue_written_logs [EGet uid]).
Qed.

(** ** Polling twice *)

Lemma lookup_record_kept_after_prune w q u record :
  snapshot (redis w) = VList q ->
  lookup_record (redis w) u = Ok record ->
  lookup_record (redis (after_prune w q)) u = Ok record.
Proof.
  intros Hs Hu. rewrite redis_after_prune. case_bool_decide as E; [done|].
  rewrite lookup_record_insert_ne; [done|]. intros ->.
  apply snapshot_cases in Hs as [Hs|[_ ->]]; [|done].
  unfold lookup_record in Hu. by rewrite Hs in Hu.
Qed.

(** X2: Repeating a status query with nothing in between gives the same answer
    (or the same exception), and the second query only reads: in every
    world, all it adds is reads on the trace. *)
Theorem get_status_twice uid w :
  let first := get_status uid w in
  let second := get_status uid (snd first) in
  fst second = fst first /\
  exists keys, snd second = logs (map EGet keys) (snd first).
Proof.
  cbv zeta.
  destruct (lookup_record (redis w) uid) as [record|e] eqn:Hrec.
  - destruct (decide (sd_status record = FINISHED)) as [Hfin|Hfin].
    + rewrite (get_status_finished_run uid w record) by done. cbn [fst snd].
      rewrite (get_status_finished_run uid _ record) by done.
      split; [done|]. by exists [uid].
    + rewrite (get_status_unfinished_run uid w record) by done.
      set (w0 := log (EGet uid) w).
      destruct (prune_and_rewrite_cases (redis w0))
        as [(q & Hs & Hr)|[(e & keys & H)|(r & keys & Hs & H)]].
      * rewrite (prune_and_rewrite_run w0 q) by done. cbn [fst snd].
        pose proof (snapshot_after_prune w0 q Hs) as Hs1.
        destruct (pruned_after_prune w0 q Hs Hr) as [Hr1 Hp1].
        pose proof (lookup_record_kept_after_prune w0 q uid record Hs Hrec)
          as Hrec1.
        rewrite (get_status_pending_run uid _ record _ Hrec1 Hfin Hs1 Hr1).
        cbn [fst snd]. rewrite Hp1. split; [done|].
        exists (uid :: pending_queue_key :: pruned (redis w0) q).
        unfold after_prune at 1. cbn [redis log]. rewrite Hp1.
        rewrite bool_decide_eq_true_2 by done.
        by rewrite log_logs, logs_logs.
      * rewrite (H w0 eq_refl). cbn [fst snd].
        rewrite (get_status_unfinished_run uid _ record) by done.
        rewrite (H (log (EGet uid) (logs (map EGet keys) w0)) eq_refl).
        split; [done|]. exists (uid :: keys).
        by rewrite log_logs, logs_logs.
      * rewrite (H w0 eq_refl). cbn [fst snd].
        rewrite (get_status_unfinished_run uid _ record) by done.
        rewrite (H (log (EGet uid) (logs (map EGet keys) w0)) eq_refl).
        split; [done|]. exists (uid :: keys).
        by rewrite log_logs, logs_logs.
  - rewrite (get_status_raise_run uid w e) by done. cbn [fst snd].
    rewrite (get_status_raise_run uid _ e) by done.
    split; [done|]. by exists [uid].
Qed.

(** ** When a status query raises *)

(** X7: A uid whose key holds a list, as the queue key does once a queue is
    stored, cannot be queried: [get_status] raises [TypeError] after the one
    read, before the queue is looked at. *)
Theorem get_status_on_list_key uid w l :
  redis w !! uid = Some (VList l) ->
  get_status uid w = (Raise TypeError, log (EGet uid) w).
Proof.
  intros Hl. apply get_status_raise_run. unfold lookup_record. by rewrite Hl.
Qed.

Lemma get_status_on_list_key_witness :
  get_status pending_queue_key busy_world
  = (Raise TypeError, log (EGet pending_queue_key) busy_world).
Proof.
  apply (get_status_on_list_key pending_queue_key busy_world ["a"; "b"; "c"]).
  reflexivity.
Defined.

Lemma scan_pure_unreadable s q k acc :
  forallb (readable s) q = false ->
  scan_pure s (enumerate_from k q) acc = Raise TypeError.
Proof.
  revert k acc. induction q as [|u q IH]; intros k acc H; simpl in *; [done|].
  unfold readable at 1 in H. unfold lookup_record in *.
  destruct (s !! u) as [[l|record]|]; [done| |]; simpl in H; by apply IH.
Qed.

(** X8: One unreadable queue entry blocks every query that has to prune: when
    some queued uid's key holds a list, [get_status] of any uid that is not
    finished raises [TypeError], having only read. *)
Theorem get_status_unreadable_entry uid w record q :
  lookup_record (redis w) uid = Ok record ->
  sd_status record <> FINISHED ->
  snapshot (redis w) = VList q ->
  forallb (readable (redis w)) q = false ->
  exists keys,
    get_status uid w = (Raise TypeError, logs (map EGet keys) w).
Proof.
  intros Hrec Hfin Hs Hr.
  destruct (scan_reads_gets (redis w) (enumerate q)) as [keys Hk].
  exists (uid :: pending_queue_key :: keys).
  rewrite (get_status_unfinished_run uid w record) by done.
  unfold prune_and_rewrite.
  rewrite bind_run, get_pending_queue_run. cbn [redis log]. rewrite Hs.
  rewrite bind_run, scan_finished_run. cbn [redis log].
  unfold enumerate in *. rewrite scan_pure_unreadable by done.
  by rewrite Hk, !log_logs, !logs_logs.
Qed.

Lemma get_status_unreadable_entry_witness :
  exists keys,
    get_status "a" knotted_world
    = (Raise TypeError, logs (map EGet keys) knotted_world).
Proof.
  apply (get_status_unreadable_entry "a" knotted_world
           (mkStatusData PENDING None) ["a"; pending_queue_key]);
    first [reflexivity | discriminate].
Defined.

(** ** The readiness probe *)

Lemma server_status_run group groups w :
  server_status (Ok (group :: groups)) w =
  (Ok (mkServerStatusModel (bool_decide (0 < length (members group)))
         (Z.of_nat (len (snapshot (redis w))))),
   log (EGet pending_queue_key) w).
Proof.
  unfold server_status. rewrite bind_run. unfold describe_consumer_groups.
  cbn zeta. by rewrite bind_run, get_pending_queue_run.
Qed.

(** X9: Readiness reflects membership, and [num_pending] is the raw length of
    the stored queue, finished uids included and 0 when the key is missing;
    the probe reads the queue key once and changes nothing else. *)
Theorem server_status_answer group groups w q :
  snapshot (redis w) = VList q ->
  exists r,
    server_status (Ok (group :: groups)) w
      = (Ok r, log (EGet pending_queue_key) w) /\
    (is_ready r = true <-> members group <> []) /\
    num_pending r = Z.of_nat (length q) /\
    (Z.of_nat (length (pruned (redis w) q)) <= num_pending r)%Z.
Proof.
  intros Hs. eexists. rewrite server_status_run, Hs.
  split; [done|]. cbn [is_ready num_pending len].
  split; [|split; [done|]].
  - rewrite bool_decide_eq_true. destruct (members group); simpl; [|split].
    + split; [lia | done].
    + done.
    + lia.
  - pose proof (marks_length_filter (finished (redis w)) 0 q) as L.
    fold (pruned (redis w) q) in L. lia.
Qed.

Lemma server_status_answer_witness :
  exists r,
    server_status (Ok [mkGroupDescription ["worker-1"]]) busy_world
      = (Ok r, log (EGet pending_queue_key) busy_world) /\
    (is_ready r = true <-> ["worker-1"] <> []) /\
    num_pending r = Z.of_nat (length ["a"; "b"; "c"]) /\
    (Z.of_nat (length (pruned (redis busy_world) ["a"; "b"; "c"]))
     <= num_pending r)%Z.
Proof.
  apply (server_status_answer (mkGroupDescription ["worker-1"]) [] busy_world
           ["a"; "b"; "c"]).
  reflexivity.
Defined.

(** X10: Without a group description there is no answer: an empty reply
    raises [IndexError] at the subscript, an exception of the admin client
    is passed on as it is, and in both cases the world is as it was: the
    store has not been read. *)
Theorem server_status_no_group w :
  server_status (Ok []) w = (Raise IndexError, w) /\
  forall e, server_status (Raise e) w = (Raise e, w).
Proof.
  split; [|intros e]; unfold server_status; rewrite bind_run;
    unfold describe_consumer_groups; done.
Qed.

Lemma index_lt uid q i : index uid q = Some i -> i < length q.
Proof.
  revert i. induction q as [|x q IH]; intros i; simpl; [done|].
  case_bool_decide; [intros [= <-]; lia|].
  destruct (index uid q) as [k|]; [|done]. intros [= <-].
  specialize (IH k eq_refl). lia.
Qed.

Lemma lag_in_bounds uid q :
  (-1 <= lag_in uid q < Z.of_nat (length q))%Z.
Proof.
  unfold lag_in. destruct (index uid q) as [i|] eqn:E; [|lia].
  apply index_lt in E. lia.
Qed.

(** X11: The lag stays below the pending count: a status query for a uid that
    is not finished answers with [-1 <= pending], and the probe run right
    after it reports the number of queued uids that are not finished, which
    is more than [pending]. *)
Theorem get_status_then_server_status uid w record q group groups :
  lookup_record (redis w) uid = Ok record ->
  sd_status record <> FINISHED ->
  snapshot (redis w) = VList q ->
  forallb (readable (redis w)) q = true ->
  exists r w' r' w'',
    get_status uid w = (Ok r, w') /\
    server_status (Ok (group :: groups)) w' = (Ok r', w'') /\
    num_pending r' = Z.of_nat (length (pruned (redis w) q)) /\
    (-1 <= pending r < num_pending r')%Z.
Proof.
  intros Hrec Hfin Hs Hr. eexists _, _, _, _.
  split; [by apply (get_status_pending_run uid w record q)|].
  split; [apply server_status_run|].
  rewrite (snapshot_after_prune (log (EGet uid) w) q Hs).
  cbn [num_pending pending len redis log].
  split; [done | apply lag_in_bounds].
Qed.

Lemma get_status_then_server_status_witness :
  exists r w' r' w'',
    get_status "c" busy_world = (Ok r, w') /\
    server_status (Ok [mkGroupDescription []]) w' = (Ok r', w'') /\
    num_pending r'
      = Z.of_nat (length (pruned (redis busy_world) ["a"; "b"; "c"])) /\
    (-1 <= pending r < num_pending r')%Z.
Proof.
  apply (get_status_then_server_status "c" busy_world
           (mkStatusData WORKING None) ["a"; "b"; "c"]
           (mkGroupDescription []) []);
    first [reflexivity | discriminate].
Defined.

(** ** The lag and the order of the queue *)

Lemma ahead_In uid u q : In u (ahead uid q) -> In u q.
Proof.
  induction q as [|x q IH]; simpl; [done|].
  case_bool_decide as E; [done|].
  intros [H|H]; [by left | right; by apply IH].
Qed.

(** A uid ahead of [v] splits what is ahead of [v]. *)
Lemma ahead_split u v q :
  In u (ahead v q) -> exists rest, ahead v q = ahead u q ++ u :: rest.
Proof.
  induction q as [|x q IH]; simpl; [done|].
  case_bool_decide as Ev; [done|].
  intros [->|H].
  - rewrite bool_decide_eq_true_2 by done. by exists (ahead v q).
  - case_bool_decide as Eu.
    + subst x. by exists (ahead v q).
    + destruct (IH H) as [rest ->]. by exists rest.
Qed.

Lemma get_status_lag_ahead uid w record q :
  lookup_record (redis w) uid = Ok record ->
  sd_status record <> FINISHED ->
  snapshot (redis w) = VList q ->
  forallb (readable (redis w)) q = true ->
  In uid q ->
  fst (get_status uid w) =
  Ok (mkStatusModel (sd_status record)
        (Z.of_nat (length (pruned (redis w) (ahead uid q))))
        (sd_data record)).
Proof.
  intros Hrec Hfin Hs Hr Hin.
  assert (Hn : finished (redis w) uid = false).
  { unfold finished, is_finished. rewrite Hrec.
    by apply bool_decide_eq_false_2. }
  assert (Hin' : In uid (pruned (redis w) q)) by by apply pruned_elem.
  rewrite (get_status_pending_run uid w record q) by done.
  cbn [fst]. unfold lag_in. rewrite (index_ahead _ _ Hin').
  unfold pruned. rewrite ahead_filter; [done|]. by rewrite Hn.
Qed.

(** X4: The lag respects the order of the queue: of two queued uids that are
    not finished, the one ahead of the other gets the smaller [pending]. *)
Theorem get_status_lag_fifo u v w ru rv q :
  lookup_record (redis w) u = Ok ru -> sd_status ru <> FINISHED ->
  lookup_record (redis w) v = Ok rv -> sd_status rv <> FINISHED ->
  snapshot (redis w) = VList q ->
  forallb (readable (redis w)) q = true ->
  In v q ->
  In u (ahead v q) ->
  exists su sv,
    fst (get_status u w) = Ok su /\
    fst (get_status v w) = Ok sv /\
    (pending su < pending sv)%Z.
Proof.
  intros Hu Hun Hv Hvn Hs Hr Hin Hahead.
  eexists _, _.
  split; [apply (get_status_lag_ahead u w ru q); try done;
          by eapply ahead_In|].
  split; [by apply (get_status_lag_ahead v w rv q)|].
  cbn [pending]. destruct (ahead_split u v q Hahead) as [rest ->].
  unfold pruned. rewrite List.filter_app, length_app. cbn [List.filter].
  assert (Hn : finished (redis w) u = false).
  { unfold finished, is_finished. rewrite Hu.
    by apply bool_decide_eq_false_2. }
  rewrite Hn. cbn [negb length]. lia.
Qed.

Lemma get_status_lag_fifo_witness :
  exists su sv,
    fst (get_status "a" busy_world) = Ok su /\
    fst (get_status "c" busy_world) = Ok sv /\
    (pending su < pending sv)%Z.
Proof.
  apply (get_status_lag_fifo "a" "c" busy_world
           (mkStatusData PENDING None) (mkStatusData WORKING None)
           ["a"; "b"; "c"]);
    try first [reflexivity | discriminate].
  - right. right. by left.
  - by left.
Defined.

Lemma index_some_In uid q i : index uid q = Some i -> In uid q.
Proof.
  revert i. induction q as [|x q IH]; intros i; simpl; [done|].
  case_bool_decide as E; [by left|].
  destruct (index uid q) as [k|]; [|done]. intros _. right. by eapply IH.
Qed.

(** X5: Pruning only ever moves a uid forward: the [pending] of a queued uid
    that is not finished is at most its position in the stored queue, and
    equals it when no uid ahead of it is finished. *)
Theorem get_status_lag_at_most_position uid w record q i :
  lookup_record (redis w) uid = Ok record ->
  sd_status record <> FINISHED ->
  snapshot (redis w) = VList q ->
  forallb (readable (redis w)) q = true ->
  index uid q = Some i ->
  exists r,
    fst (get_status uid w) = Ok r /\
    (0 <= pending r <= Z.of_nat i)%Z /\
    (pruned (redis w) (ahead uid q) = ahead uid q ->
     pending r = Z.of_nat i).
Proof.
  intros Hrec Hfin Hs Hr Hi.
  assert (Hin : In uid q) by by eapply index_some_In.
  rewrite (index_ahead _ _ Hin) in Hi. injection Hi as <-.
  eexists. split; [by apply (get_status_lag_ahead uid w record q)|].
  cbn [pending]. split.
  - pose proof (marks_length_filter (finished (redis w)) 0 (ahead uid q)) as L.
    fold (pruned (redis w) (ahead uid q)) in L. lia.
  - by intros ->.
Qed.

Lemma get_status_lag_at_most_position_witness :
  exists r,
    fst (get_status "c" busy_world) = Ok r /\
    (0 <= pending r <= Z.of_nat 2)%Z /\
    (pruned (redis busy_world) (ahead "c" ["a"; "b"; "c"])
       = ahead "c" ["a"; "b"; "c"] ->
     pending r = Z.of_nat 2).
Proof.
  apply (get_status_lag_at_most_position "c" busy_world
           (mkStatusData WORKING None) ["a"; "b"; "c"] 2);
    first [reflexivity | discriminate].
Defined.

(** ** Submitting, then asking *)

Lemma push_run data topic w q :
  kafka_up w = true ->
  snapshot (redis w) = VList q ->
  push data topic w =
  (Ok (mkProducerResponseModel (rng w (draws w))), after_push data topic w q).
Proof.
  intros Hup Hs. destruct w as [s up acks k r d t]. cbn in Hup, Hs. subst up.
  unfold push, after_push.
  rewrite bind_run. unfold random_hash. cbn zeta.
  rewrite bind_run. unfold kafka_send. cbn [kafka_up log with_draws].
  rewrite bind_run, get_pending_queue_run.
  cbn [redis log with_kafka with_draws]. rewrite Hs.
  cbv [mbind M_bind mret M_ret redis_set log with_redis with_kafka with_draws
       redis kafka_up kafka_acks kafka rng draws trace].
  by rewrite <- !app_assoc.
Qed.

Lemma snapshot_after_push data topic w q :
  rng w (draws w) <> pending_queue_key ->
  snapshot (redis (after_push data topic w q)) = VList (q ++ [rng w (draws w)]).
Proof.
  intros Hne. unfold snapshot, after_push. cbn [redis].
  rewrite lookup_insert_ne by done. by rewrite lookup_insert_eq.
Qed.

Lemma index_app_fresh uid l :
  ~ In uid l -> index uid (l ++ [uid]) = Some (length l).
Proof.
  induction l as [|x l IH]; intros Hn; simpl.
  - by rewrite bool_decide_eq_true_2.
  - rewrite bool_decide_eq_false_2 by (intros ->; apply Hn; by left).
    rewrite IH; [done|]. intros H. apply Hn. by right.
Qed.

(** X12: A task submitted into a queue that does not hold its uid yet starts
    behind every queued task that is not finished: the status query right
    after the submission answers [pending] with their number. *)
Theorem push_then_lag data topic w q :
  kafka_up w = true ->
  snapshot (redis w) = VList q ->
  forallb (readable (redis w)) q = true ->
  rng w (draws w) <> pending_queue_key ->
  ~ In (rng w (draws w)) q ->
  exists r w' w'',
    push data topic w = (Ok r, w') /\
    get_status (uid r) w' =
      (Ok (mkStatusModel PENDING
             (Z.of_nat (length (pruned (redis w) q))) None), w'').
Proof.
  intros Hup Hs Hr Hne Hfresh. set (u := rng w (draws w)) in *.
  eexists _, _, _. split; [by apply push_run|]. cbn [uid]. fold u.
  destruct (store_after_push (redis w) q u Hs Hr Hne) as (Hrec & Hs' & Hr').
  set (s' := <[u := VDict (mkStatusData PENDING None)]>
               (<[pending_queue_key := VList (q ++ [u])]> (redis w))) in *.
  assert (Hp : pruned s' (q ++ [u]) = pruned (redis w) q ++ [u]).
  { unfold pruned. rewrite List.filter_app. f_equal.
    - apply filter_ext_in. intros x Hx. f_equal. unfold finished, s'.
      rewrite lookup_record_insert_ne by (intros ->; done).
      rewrite lookup_record_insert_ne; [done|].
      rewrite forallb_forall in Hr. specialize (Hr x Hx). intros ->.
      apply snapshot_cases in Hs as [Hs|[_ ->]]; [|done].
      unfold readable, lookup_record in Hr. by rewrite Hs in Hr.
    - cbn [List.filter]. unfold finished. by rewrite Hrec. }
  rewrite (get_status_pending_run u (after_push data topic w q)
             (mkStatusData PENDING None) (q ++ [u])); [|done..].
  cbn [redis after_push sd_status sd_data]. fold u. fold s'. rewrite Hp.
  unfold lag_in. rewrite index_app_fresh; [done|].
  intros Hin. apply pruned_elem in Hin as [Hin _]. done.
Qed.

Lemma push_then_lag_witness :
  exists r w' w'',
    push (mkProducerModel "resize" "w100h100") "jobs" busy_world = (Ok r, w') /\
    get_status (uid r) w' =
      (Ok (mkStatusModel PENDING
             (Z.of_nat (length (pruned (redis busy_world) ["a"; "b"; "c"])))
             None), w'').
Proof.
  apply (push_then_lag (mkProducerModel "resize" "w100h100") "jobs"
           busy_world ["a"; "b"; "c"]);
    try first [reflexivity | discriminate].
  intros [H|[H|[H|[]]]]; discriminate H.
Defined.

(** X13: Submission order is queue order: two submissions in a row leave the
    queue extended by the two uids in the order they were drawn, and the
    producer with the two messages, sent in that order. *)
Theorem push_twice_keeps_order d1 t1 d2 t2 w q :
  kafka_up w = true ->
  snapshot (redis w) = VList q ->
  rng w (draws w) <> pending_queue_key ->
  rng w (S (draws w)) <> pending_queue_key ->
  let u1 := rng w (draws w) in
  let u2 := rng w (S (draws w)) in
  exists w1 w2,
    push d1 t1 w = (Ok (mkProducerResponseModel u1), w1) /\
    push d2 t2 w1 = (Ok (mkProducerResponseModel u2), w2) /\
    snapshot (redis w2) = VList (q ++ [u1; u2]) /\
    kafka w2 = kafka w ++ [(t1, mkMessage u1 (task d1) (params d1));
                           (t2, mkMessage u2 (task d2) (params d2))].
Proof.
  intros Hup Hs Hne1 Hne2 u1 u2.
  pose proof (snapshot_after_push d1 t1 w q Hne1) as Hs1.
  exists (after_push d1 t1 w q),
         (after_push d2 t2 (after_push d1 t1 w q) (q ++ [u1])).
  split; [by apply push_run|].
  split; [by apply (push_run d2 t2 (after_push d1 t1 w q))|].
  split.
  - rewrite snapshot_after_push by done. cbn [after_push rng draws].
    by rewrite <- app_assoc.
  - cbn [after_push kafka rng draws]. by rewrite <- app_assoc.
Qed.

Lemma push_twice_keeps_order_witness :
  let u1 := "u0" in
  let u2 := "u1" in
  exists w1 w2,
    push (mkProducerModel "resize" "w100h100") "jobs" fresh_world
      = (Ok (mkProducerResponseModel u1), w1) /\
    push (mkProducerModel "crop" "w10h10") "thumbs" w1
      = (Ok (mkProducerResponseModel u2), w2) /\
    snapshot (redis w2) = VList ([] ++ [u1; u2]) /\
    kafka w2 = kafka fresh_world ++
                 [("jobs", mkMessage u1 "resize" "w100h100");
                  ("thumbs", mkMessage u2 "crop" "w10h10")].
Proof.
  apply (push_twice_keeps_order (mkProducerModel "resize" "w100h100") "jobs"
           (mkProducerModel "crop" "w10h10") "thumbs" fresh_world []);
    first [reflexivity | discriminate].
Defined.

(** X14: Each submission raises the pending count of the probe by one. *)
Theorem push_then_server_status data topic w q group groups :
  kafka_up w = true ->
  snapshot (redis w) = VList q ->
  rng w (draws w) <> pending_queue_key ->
  exists before r w' after,
    fst (server_status (Ok (group :: groups)) w) = Ok before /\
    push data topic w = (Ok r, w') /\
    fst (server_status (Ok (group :: groups)) w') = Ok after /\
    num_pending after = (num_pending before + 1)%Z.
Proof.
  intros Hup Hs Hne. eexists _, _, _, _.
  split; [by rewrite server_status_run|].
  split; [by apply push_run|].
  split; [by rewrite server_status_run|].
  rewrite snapshot_after_push, Hs by done.
  cbn [num_pending len]. rewrite length_app. simpl. lia.
Qed.

Lemma push_then_server_status_witness :
  exists before r w' after,
    fst (server_status (Ok [mkGroupDescription ["worker-1"]]) busy_world)
      = Ok before /\
    push (mkProducerModel "resize" "w100h100") "jobs" busy_world = (Ok r, w') /\
    fst (server_status (Ok [mkGroupDescription ["worker-1"]]) w') = Ok after /\
    num_pending after = (num_pending before + 1)%Z.
Proof.
  apply (push_then_server_status (mkProducerModel "resize" "w100h100") "jobs"
           busy_world ["a"; "b"; "c"] (mkGroupDescription ["worker-1"]) []);
    first [reflexivity | discriminate].
Defined.

(** X15: [push] is not atomic.  When the queue step raises after the send,
    here because the queue key holds an object, the message stays sent,
    while no uid is returned and nothing is written to the store. *)
Theorem push_queue_failure_keeps_message data topic w record :
  kafka_up w = true ->
  snapshot (redis w) = VDict record ->
  exists w',
    push data topic w = (Raise AttributeError, w') /\
    redis w' = redis w /\
    kafka w' =
      kafka w ++ [(topic, mkMessage (rng w (draws w)) (task data) (params data))].
Proof.
  intros Hup Hs. eexists. unfold push.
  rewrite bind_run. unfold random_hash. cbn zeta.
  rewrite bind_run. unfold kafka_send. cbn [kafka_up log with_draws].
  rewrite Hup. rewrite bind_run, get_pending_queue_run.
  cbn [redis log with_kafka with_draws]. rewrite Hs. done.
Qed.

Lemma push_queue_failure_keeps_message_witness :
  exists w',
    push (mkProducerModel "resize" "w100h100") "jobs" object_world
      = (Raise AttributeError, w') /\
    redis w' = redis object_world /\
    kafka w' =
      kafka object_world ++ [("jobs", mkMessage "a" "resize" "w100h100")].
Proof.
  apply (push_queue_failure_keeps_message
           (mkProducerModel "resize" "w100h100") "jobs" object_world
           (mkStatusData PENDING None)); reflexivity.
Defined.

(** ** The access-log filter *)

(** X16: A record passes the filter exactly when it has at least three
    arguments and the third is not one of the excluded endpoints: records
    of [/health], [/redoc], [/docs] and [/openapi.json], and records with
    fewer than three arguments, are never logged. *)
Theorem EndpointFilter_filter_passes (args : option (list arg)) :
  EndpointFilter_filter args = true <->
  exists l, args = Some l /\ 3 <= length l /\
    forall path, l !! 2 = Some (AStr path) ->
      path <> "/health" /\ path <> "/redoc" /\ path <> "/docs" /\
      path <> "/openapi.json".
Proof.
  unfold EndpointFilter_filter, excluded_endpoints. split.
  - destruct args as [l|]; [|done]. destruct l as [|a l]; [done|].
    destruct (length (a :: l) <? 3) eqn:Hlen; [done|].
    apply Nat.ltb_ge in Hlen. intros H. exists (a :: l).
    split; [done|]. split; [done|]. intros path Hp. rewrite Hp in H.
    case_bool_decide as E; [done|].
    rewrite !not_elem_of_cons in E. by destruct E as (? & ? & ? & ? & _).
  - intros (l & -> & Hlen & Hpath). destruct l as [|a l]; [simpl in Hlen; lia|].
    apply Nat.ltb_ge in Hlen. rewrite Hlen.
    destruct ((a :: l) !! 2) as [[path|]|] eqn:Hp; [|done|done].
    destruct (Hpath path eq_refl) as (H1 & H2 & H3 & H4).
    rewrite bool_decide_eq_false_2; [done|]. rewrite !not_elem_of_cons.
    repeat split; try done. by intros ?%elem_of_nil.
Qed.

(** ** The record is the authority *)

(** X3: Whatever the queue holds, the status and data a query returns are the
    ones of the stored Task Record (the pending default when there is
    none): the lag computation never alters them. *)
Theorem get_status_reports_record uid w r w' :
  get_status uid w = (Ok r, w') ->
  lookup_record (redis w) uid = Ok (mkStatusData (status r) (data r)) /\
  lookup_record (redis w') uid = Ok (mkStatusData (status r) (data r)).
Proof.
  intros Hrun.
  assert (Hfirst : lookup_record (redis w) uid
                   = Ok (mkStatusData (status r) (data r))).
  { destruct (lookup_record (redis w) uid) as [record|e] eqn:Hrec.
    - destruct record as [st d].
      destruct (decide (st = FINISHED)) as [Hfin|Hfin].
      + rewrite (get_status_finished_run uid w _ Hrec Hfin) in Hrun.
        injection Hrun as <- _. by rewrite Hfin.
      + rewrite (get_status_unfinished_run uid w _ Hrec Hfin) in Hrun.
        destruct (prune_and_rewrite (log (EGet uid) w)) as [[[q'|o]|e] w1];
          simpl in Hrun; [| |discriminate Hrun]; by injection Hrun as <- _.
    - by rewrite (get_status_raise_run uid w e Hrec) in Hrun. }
  split; [done|].
  destruct (decide (status r = FINISHED)) as [Hfin|Hfin].
  - rewrite (get_status_finished_run uid w _ Hfirst Hfin) in Hrun.
    by injection Hrun as _ <-.
  - rewrite (get_status_unfinished_run uid w _ Hfirst Hfin) in Hrun.
    set (w0 := log (EGet uid) w) in *.
    destruct (prune_and_rewrite_cases (redis w0))
      as [(q & Hs & Hr)|[(e & keys & H)|(o & keys & Hs & H)]].
    + rewrite (prune_and_rewrite_run w0 q Hs Hr) in Hrun.
      injection Hrun as _ <-.
      by apply (lookup_record_kept_after_prune w0 q).
    + by rewrite (H w0 eq_refl) in Hrun.
    + rewrite (H w0 eq_refl) in Hrun. by injection Hrun as _ <-.
Qed.

Lemma get_status_reports_record_witness :
  lookup_record (redis busy_world) "c"
    = Ok (mkStatusData WORKING None) /\
  lookup_record (redis (snd (get_status "c" busy_world))) "c"
    = Ok (mkStatusData WORKING None).
Proof.
  apply (get_status_reports_record "c" busy_world
           (mkStatusModel WORKING 1 None) (snd (get_status "c" busy_world))).
  reflexivity.
Defined.

(** ** Progress *)

Lemma filter_length_drop {A} (f g : A -> bool) (x : A) (l : list A) :
  (forall y, g y = true -> f y = true) ->
  In x l -> f x = true -> g x = false ->
  length (List.filter g l) < length (List.filter f l).
Proof.
  intros Hle Hin Hf Hg.
  assert (Hmono : forall l', length (List.filter g l')
                             <= length (List.filter f l')).
  { induction l' as [|y l' IH]; simpl; [done|].
    destruct (g y) eqn:Eg.
    - rewrite (Hle y Eg). simpl. lia.
    - destruct (f y); simpl; lia. }
  induction l as [|y l IH]; simpl; [done|].
  destruct Hin as [->|Hin].
  - rewrite Hf, Hg. simpl. specialize (Hmono l). lia.
  - specialize (IH Hin). destruct (g y) eqn:Eg.
    + rewrite (Hle y Eg). simpl. lia.
    + destruct (f y); simpl; lia.
Qed.

(** X6: When a worker marks a task ahead of [uid] finished, the next status
    query for [uid] answers a smaller [pending] than it would have. *)
Theorem get_status_lag_drops uid x w record q payload :
  lookup_record (redis w) uid = Ok record ->
  sd_status record <> FINISHED ->
  snapshot (redis w) = VList q ->
  forallb (readable (redis w)) q = true ->
  In uid q ->
  In x (ahead uid q) ->
  finished (redis w) x = false ->
  let done_x := <[x := VDict (mkStatusData FINISHED payload)]> (redis w) in
  exists r r',
    fst (get_status uid w) = Ok r /\
    fst (get_status uid (with_redis done_x w)) = Ok r' /\
    status r' = status r /\
    (0 <= pending r' < pending r)%Z.
Proof.
  intros Hrec Hfin Hs Hr Hin Hx Hxn done_x.
  assert (Hxq : In x q) by by eapply ahead_In.
  assert (Hxu : x <> uid).
  { intros ->. clear -Hx. induction q as [|y q IH]; simpl in Hx; [done|].
    case_bool_decide as E; [done|]. destruct Hx as [->|Hx]; [done|].
    by apply IH. }
  assert (Hxk : x <> pending_queue_key).
  { apply snapshot_cases in Hs as [Hs|[_ ->]]; [|done].
    eapply readable_not_queue_key; [done|].
    rewrite forallb_forall in Hr. by apply Hr. }
  assert (Hl : forall y, y <> x ->
                 lookup_record done_x y = lookup_record (redis w) y)
    by (intros y Hy; by apply lookup_record_insert_ne).
  assert (Hs' : snapshot done_x = VList q).
  { unfold snapshot, done_x. by rewrite lookup_insert_ne. }
  assert (Hr' : forallb (readable done_x) q = true).
  { apply forallb_forall. intros y Hy. rewrite forallb_forall in Hr.
    unfold readable. destruct (decide (y = x)) as [->|Hyx].
    - unfold lookup_record, done_x. by rewrite lookup_insert_eq.
    - rewrite Hl by done. by apply Hr. }
  eexists _, _.
  split; [by apply (get_status_lag_ahead uid w record q)|].
  split.
  { apply (get_status_lag_ahead uid (with_redis done_x w) record q);
      cbn [redis with_redis]; try done. by rewrite Hl. }
  cbn [status pending redis with_redis]. split; [done|].
  split; [lia|]. apply inj_lt. unfold pruned.
  apply (filter_length_drop _ _ x); [|done| |].
  - intros y. rewrite !negb_true_iff. unfold finished.
    destruct (decide (y = x)) as [->|Hyx].
    + unfold lookup_record at 1, done_x. rewrite lookup_insert_eq.
      by unfold is_finished.
    + by rewrite Hl.
  - by rewrite Hxn.
  - unfold finished, lookup_record, done_x. rewrite lookup_insert_eq.
    by unfold is_finished.
Qed.

Lemma get_status_lag_drops_witness :
  let done_x :=
    <["a" := VDict (mkStatusData FINISHED (Some "url"))]> (redis busy_world) in
  exists r r',
    fst (get_status "c" busy_world) = Ok r /\
    fst (get_status "c" (with_redis done_x busy_world)) = Ok r' /\
    status r' = status r /\
    (0 <= pending r' < pending r)%Z.
Proof.
  apply (get_status_lag_drops "c" "a" busy_world (mkStatusData WORKING None)
           ["a"; "b"; "c"] (Some "url"));
    try first [reflexivity | discriminate].
  - right. right. by left.
  - by left.
Defined.
